(** * gdvariant: the Variant binary codec

    A shallow embedding of the Go package [gdvariant] (types.go and the
    encoder/decoder file) together with the properties its specification
    states about it.

    Modelling conventions.
    - A Go [uint32] is a [Z] in [0, 2^32); an [int32] is a [Z] in
      [-2^31, 2^31); Go's integer conversions are written out ([to_uint32],
      [to_int32]).
    - A Go [float32] is represented by its IEEE-754 bit pattern, the [uint32]
      that [math.Float32bits] returns; [math.Float32bits] and
      [math.Float32frombits] are bit casts.  A [float64] is likewise its
      64-bit pattern.  The rounding conversion from [float64] to [float32]
      is not computed here: it is a parameter of the encoder.
    - A Go [string] is a [string] of Rocq, [[]byte] is [list byte].
    - [io.Reader] is an in-memory stream ([bytes.Buffer]): the list of the
      bytes still to be read.  [io.Writer] is an interface, hence a class.
    - [map[string]interface{}] is a [gmap string obj].
    - Go's [int] is 64 bits wide. *)

From Stdlib Require Import ZArith List Lia Bool.
From Stdlib Require Import Strings.Byte Strings.String Strings.Ascii.
From stdpp Require Import gmap strings list.

Set Warnings "-register-all".
Local Open Scope Z_scope.

(** ** Machine integers and bytes *)

Definition to_uint32 (n : Z) : Z := n mod 2^32.

Definition to_int32 (n : Z) : Z :=
  let u := n mod 2^32 in if u <? 2^31 then u else u - 2^32.

Definition byte_to_Z (b : byte) : Z := Z.of_N (Byte.to_N b).

(** [byte(x)]: the low eight bits. *)
Definition to_byte (x : Z) : byte :=
  match Byte.of_N (Z.to_N (Z.land x 255)) with
  | Some b => b
  | None => x00
  end.

(** [b[i]] of a slice that is long enough; the zero byte stands for the
    index panic, which no call below reaches. *)
Definition index (b : list byte) (i : nat) : byte := nth i b x00.

(** [binary.LittleEndian.PutUint32] on a fresh 4-byte slice. *)
Definition PutUint32 (v : Z) : list byte :=
  [to_byte v; to_byte (Z.shiftr v 8); to_byte (Z.shiftr v 16);
   to_byte (Z.shiftr v 24)].

(** [binary.LittleEndian.Uint32]. *)
Definition Uint32 (b : list byte) : Z :=
  Z.lor (Z.lor (Z.lor (byte_to_Z (index b 0))
                      (Z.shiftl (byte_to_Z (index b 1)) 8))
               (Z.shiftl (byte_to_Z (index b 2)) 16))
        (Z.shiftl (byte_to_Z (index b 3)) 24).

(** Floats as bit patterns. *)
Definition float32 := Z.
Definition float64 := Z.
Definition Float32bits (f : float32) : Z := f.
Definition Float32frombits (b : Z) : float32 := b.

(** ** Tag catalog (types.go) *)

Definition NullType : Z := 0.
Definition BoolType : Z := 1.
Definition IntegerType : Z := 2.
Definition FloatType : Z := 3.
Definition StringType : Z := 4.
Definition Vector2Type : Z := 5.
Definition Rect2Type : Z := 6.
Definition Vector3Type : Z := 7.
Definition Matrix32Type : Z := 8.
Definition PlaneType : Z := 9.
Definition QuaternionType : Z := 10.
Definition AabbType : Z := 11.
Definition Matrix3x3Type : Z := 12.
Definition TransformType : Z := 13.
Definition ColorType : Z := 14.
Definition ImageType : Z := 15.
Definition NodePathType : Z := 16.
Definition RidType : Z := 17.
Definition ObjectType : Z := 18.
Definition InputEventType : Z := 19.
Definition DictionaryType : Z := 20.
Definition ArrayType : Z := 21.
Definition ByteArrayType : Z := 22.
Definition IntegerArrayType : Z := 23.
Definition FloatArrayType : Z := 24.
Definition StringArrayType : Z := 25.
Definition Vector2ArrayType : Z := 26.
Definition Vector3ArrayType : Z := 27.
Definition ColorArrayType : Z := 28.

(** ** Go's [reflect.Kind] *)

Module reflect.
Inductive Kind :=
  | Invalid | Bool
  | Int | Int8 | Int16 | Int32 | Int64
  | Uint | Uint8 | Uint16 | Uint32 | Uint64 | Uintptr
  | Float32 | Float64 | Complex64 | Complex128
  | Array | Chan | Func | Interface | Map | Pointer | Slice
  | String | Struct | UnsafePointer.

(** [Kind.String()], used by the [%s] of the encoder's error. *)
Definition Kind_String (k : Kind) : string :=
  match k with
  | Invalid => "invalid" | Bool => "bool"
  | Int => "int" | Int8 => "int8" | Int16 => "int16" | Int32 => "int32"
  | Int64 => "int64"
  | Uint => "uint" | Uint8 => "uint8" | Uint16 => "uint16"
  | Uint32 => "uint32" | Uint64 => "uint64" | Uintptr => "uintptr"
  | Float32 => "float32" | Float64 => "float64"
  | Complex64 => "complex64" | Complex128 => "complex128"
  | Array => "array" | Chan => "chan" | Func => "func"
  | Interface => "interface" | Map => "map" | Pointer => "ptr"
  | Slice => "slice" | String => "string" | Struct => "struct"
  | UnsafePointer => "unsafe.Pointer"
  end.
End reflect.

(** ** Errors *)

Inductive error :=
  | EOF                                   (* io.EOF *)
  | ErrUnexpectedEOF                      (* io.ErrUnexpectedEOF *)
  | ErrShortWrite                         (* io.ErrShortWrite *)
  | ErrUnsupportedDecodeType (typ : Z) (b : list byte)
      (* fmt.Errorf("unsupported decode type %d %v", typ, b) *)
  | ErrCannotConvert (T : string)
      (* fmt.Errorf("cannot convert %T to string", o) *)
  | ErrUnsupportedKind (k : reflect.Kind)
      (* fmt.Errorf("unsupported kind %s", k) *)
  | ErrHook (msg : string)                (* an error of a foreign hook *)
  | Panic (msg : string).                 (* a run-time panic of reflect *)

(** ** Streams *)

(** *** Reading: [io.Reader] as the bytes that remain. *)

Definition Reader := list byte.

(** The outcome of a decoding step.  [OutOfFuel] is not a Go outcome: it
    marks a recursion bound of the model that was too small. *)
Inductive result (A : Type) :=
  | Ok (a : A)
  | Err (e : error)
  | OutOfFuel.
Arguments Ok {A} a.
Arguments Err {A} e.
Arguments OutOfFuel {A}.

(** A decoding step reads from the stream and leaves the rest of it. *)
Definition Dec (A : Type) := Reader -> result A * Reader.

Definition ret {A} (a : A) : Dec A := fun r => (Ok a, r).
Definition fail {A} (e : error) : Dec A := fun r => (Err e, r).
Definition bind {A B} (m : Dec A) (f : A -> Dec B) : Dec B :=
  fun r =>
    match m r with
    | (Ok a, r') => f a r'
    | (Err e, r') => (Err e, r')
    | (OutOfFuel, r') => (OutOfFuel, r')
    end.

Declare Scope dec_scope.
Delimit Scope dec_scope with dec.
Notation "x <- m ;; k" := (bind m (fun x => k))
  (at level 100, m at next level, right associativity) : dec_scope.

(** [io.ReadAtLeast(r, buf, min)] with [len(buf) = min = n] on an in-memory
    stream: with [n = 0] nothing is read; an empty stream gives [io.EOF];
    a stream shorter than [n] is drained and gives [io.ErrUnexpectedEOF]. *)
Definition ReadAtLeast (n : nat) : Dec (list byte) :=
  fun r =>
    match n with
    | O => (Ok [], r)
    | S _ =>
        match r with
        | [] => (Err EOF, [])
        | _ :: _ =>
            if (length r <? n)%nat then (Err ErrUnexpectedEOF, [])
            else (Ok (firstn n r), skipn n r)
        end
    end.

(** [binary.Read(r, binary.LittleEndian, &x)] for a 4-byte [x]: it is
    [io.ReadFull] on a 4-byte buffer followed by [Uint32]. *)
Definition binary_Read_uint32 : Dec Z :=
  (bs <- ReadAtLeast 4 ;; ret (Uint32 bs))%dec.

Definition readHeader : Dec Z := binary_Read_uint32.

Definition Float32FromBytes (bytes : list byte) : float32 :=
  let bits := Uint32 bytes in
  Float32frombits bits.

Definition Int32FromBytes (bytes : list byte) : Z :=
  to_int32 (Uint32 bytes).

Definition Float32ToBytes (float : float32) : list byte :=
  let bits := Float32bits float in
  PutUint32 bits.

Definition ReadFloat32 : Dec float32 :=
  (bits <- binary_Read_uint32 ;; ret (Float32frombits bits))%dec.

Definition ReadInt32 : Dec Z :=
  (u <- binary_Read_uint32 ;; ret (to_int32 u))%dec.

Definition ReadHeaderFromBytes (bytes : list byte) : Z := Uint32 bytes.

(** *** Writing: [io.Writer] is an interface. *)

Class Writer (W : Type) := Write : W -> list byte -> W * option error.

(** [bytes.Buffer]: appends, never fails. *)
#[export] Instance Buffer_Writer : Writer (list byte) :=
  fun w p => (w ++ p, None).

(** A sink with room for a fixed number of bytes: a write that does not
    fit stores what fits and fails with [io.ErrShortWrite]. *)
Record LimitedWriter := { lw_out : list byte; lw_room : nat }.

#[export] Instance Limited_Writer : Writer LimitedWriter :=
  fun w p =>
    if (length p <=? lw_room w)%nat
    then ({| lw_out := lw_out w ++ p; lw_room := lw_room w - length p |}, None)
    else ({| lw_out := lw_out w ++ firstn (lw_room w) p; lw_room := 0 |},
          Some ErrShortWrite).

(** An encoding step writes to the stream and returns Go's [error]
    ([None] is [nil]). *)
Definition Enc (W : Type) := W -> W * option error.

Definition done_ {W} : Enc W := fun w => (w, None).
Definition raise {W} (e : error) : Enc W := fun w => (w, Some e).

(** [if err := e1; err != nil { return err }; e2] *)
Definition andThen {W} (e1 e2 : Enc W) : Enc W :=
  fun w =>
    match e1 w with
    | (w', Some e) => (w', Some e)
    | (w', None) => e2 w'
    end.

Declare Scope enc_scope.
Delimit Scope enc_scope with enc.
Notation "e1 ;; e2" := (andThen e1 e2)
  (at level 100, right associativity) : enc_scope.

Section PrimitiveWrites.
Context {W : Type} `{Writer W}.

(** [binary.Write(w, binary.LittleEndian, x)] for a 4-byte [x]. *)
Definition binary_Write_uint32 (x : Z) : Enc W :=
  fun w => Write w (PutUint32 x).

Definition WriteFloat32 (float : float32) : Enc W :=
  let bits := Float32bits float in
  binary_Write_uint32 bits.

Definition WriteInt32 (i : Z) : Enc W := binary_Write_uint32 (to_uint32 i).
Definition WriteUint32 (i : Z) : Enc W := binary_Write_uint32 i.
Definition WriteHeader (header : Z) : Enc W := binary_Write_uint32 header.
End PrimitiveWrites.

(** ** Values handed to the encoder

    [value] is what [reflect.ValueOf] shows of a Go value: its type (as far
    as the encoder looks at it) and its contents. *)

Inductive gotype :=
  | TBasic (k : reflect.Kind)     (* bool, intN, uintN, floatN, string *)
  | TInteger                      (* gdvariant.Integer *)
  | TFloat                        (* gdvariant.Float *)
  | TVector3                      (* gdvariant.Vector3 *)
  | TForeign                      (* another type with a MarshalVariant *)
  | TInterface                    (* interface{} *)
  | TSlice (elem : gotype)
  | TStruct (fields : list (string * gotype))
  | TMap (key elem : gotype).

(** [Type.Kind()] *)
Definition Type_Kind (t : gotype) : reflect.Kind :=
  match t with
  | TBasic k => k
  | TInteger => reflect.Int32
  | TFloat => reflect.Float32
  | TVector3 => reflect.Struct
  | TForeign => reflect.Struct
  | TInterface => reflect.Interface
  | TSlice _ => reflect.Slice
  | TStruct _ => reflect.Struct
  | TMap _ _ => reflect.Map
  end.

Inductive value :=
  | VInt (k : reflect.Kind) (n : Z)   (* an integer of a built-in type *)
  | VFloat32 (f : float32)
  | VFloat64 (f : float64)
  | VString (s : string)
  | VBool (b : bool)
  | VInteger (i : Z)                  (* gdvariant.Integer *)
  | VFloat (f : float32)              (* gdvariant.Float *)
  | VVector3 (X Y Z : float32)        (* gdvariant.Vector3 *)
  | VForeign (data : list byte) (err : option error)
      (* a value of a foreign type; its MarshalVariant returns (data, err) *)
  | VIface (v : value)                (* v held in an interface{} slot *)
  | VSlice (elem : gotype) (a : list value)
  | VStruct (fields : list (string * value))
  | VMap (key elem : gotype) (entries : list (value * value)).
      (* the entries in the order MapKeys returns the keys *)

(** [reflect.TypeOf] *)
Fixpoint TypeOf (v : value) : gotype :=
  match v with
  | VInt k _ => TBasic k
  | VFloat32 _ => TBasic reflect.Float32
  | VFloat64 _ => TBasic reflect.Float64
  | VString _ => TBasic reflect.String
  | VBool _ => TBasic reflect.Bool
  | VInteger _ => TInteger
  | VFloat _ => TFloat
  | VVector3 _ _ _ => TVector3
  | VForeign _ _ => TForeign
  | VIface _ => TInterface
  | VSlice t _ => TSlice t
  | VStruct fs => TStruct (List.map (fun f => (fst f, TypeOf (snd f))) fs)
  | VMap k e _ => TMap k e
  end.

(** [Value.Kind()] *)
Definition Value_Kind (v : value) : reflect.Kind := Type_Kind (TypeOf v).

(** ** The Extension Hook (types.go) *)

(** [Integer.MarshalVariant]: two writes into a fresh [bytes.Buffer]. *)
Definition Integer_MarshalVariant (i : Z) : list byte * option error :=
  let buf : list byte := [] in
  match WriteHeader IntegerType buf with
  | (_, Some err) => ([], Some err)
  | (buf, None) =>
      match WriteInt32 i buf with
      | (_, Some err) => ([], Some err)
      | (buf, None) => (buf, None)
      end
  end.

Definition Float_MarshalVariant (f : float32) : list byte * option error :=
  let buf : list byte := [] in
  match WriteHeader FloatType buf with
  | (_, Some err) => ([], Some err)
  | (buf, None) =>
      match WriteFloat32 f buf with
      | (_, Some err) => ([], Some err)
      | (buf, None) => (buf, None)
      end
  end.

Definition Vector3_MarshalVariant (X Y Z : float32)
  : list byte * option error :=
  let buf : list byte := [] in
  match WriteHeader Vector3Type buf with
  | (_, Some err) => ([], Some err)
  | (buf, None) =>
      match WriteFloat32 X buf with
      | (_, Some err) => ([], Some err)
      | (buf, None) =>
          match WriteFloat32 Y buf with
          | (_, Some err) => ([], Some err)
          | (buf, None) =>
              match WriteFloat32 Z buf with
              | (_, Some err) => ([], Some err)
              | (buf, None) => (buf, None)
              end
          end
      end
  end.

(** [v.Type().Implements(marshalerType)] and, when it holds, the result of
    [v.Interface().(VariantMarshaler).MarshalVariant()]. *)
Definition MarshalVariant (v : value) : option (list byte * option error) :=
  match v with
  | VInteger i => Some (Integer_MarshalVariant i)
  | VFloat f => Some (Float_MarshalVariant f)
  | VVector3 X Y Z => Some (Vector3_MarshalVariant X Y Z)
  | VForeign data err => Some (data, err)
  | _ => None
  end.

Definition Implements_marshalerType (v : value) : bool :=
  match MarshalVariant v with Some _ => true | None => false end.

(** [Integer.UnmarshalVariant], [Float.UnmarshalVariant] and
    [Vector3.UnmarshalVariant]: the new value of the receiver, or the
    error. *)
Definition Integer_UnmarshalVariant (data : list byte) : result Z :=
  if (length data <? 4)%nat then Err ErrUnexpectedEOF
  else Ok (Int32FromBytes (firstn 4 data)).

Definition Float_UnmarshalVariant (data : list byte) : result float32 :=
  if (length data <? 4)%nat then Err ErrUnexpectedEOF
  else Ok (Float32FromBytes (firstn 4 data)).

Definition Vector3_UnmarshalVariant (data : list byte)
  : result (float32 * float32 * float32) :=
  if (length data <? 12)%nat then Err ErrUnexpectedEOF
  else Ok (Float32FromBytes (firstn 4 data),
           Float32FromBytes (firstn 4 (skipn 4 data)),
           Float32FromBytes (firstn 4 (skipn 8 data))).

(** ** Reflection on values, as the encoder uses it *)

(** The integer a built-in or named integer value holds. *)
Definition is_signed (k : reflect.Kind) : bool :=
  match k with
  | reflect.Int | reflect.Int8 | reflect.Int16 | reflect.Int32
  | reflect.Int64 => true
  | _ => false
  end.

Definition is_unsigned (k : reflect.Kind) : bool :=
  match k with
  | reflect.Uint | reflect.Uint8 | reflect.Uint16 | reflect.Uint32
  | reflect.Uint64 | reflect.Uintptr => true
  | _ => false
  end.

(** [Value.Int()]; [None] is its panic on a value that is not of a signed
    integer kind. *)
Definition Value_Int (v : value) : option Z :=
  match v with
  | VInt k n => if is_signed k then Some n else None
  | VInteger i => Some i
  | _ => None
  end.

(** [Value.Uint()]; [None] is its panic on a value that is not of an
    unsigned integer kind. *)
Definition Value_Uint (v : value) : option Z :=
  match v with
  | VInt k n => if is_unsigned k then Some n else None
  | _ => None
  end.

(** ** Encoder *)

Section Encoder.
Context {W : Type} `{Writer W}.

(** Go's rounding conversion [float32(x)] of a [float64]. *)
Variable float32_of_float64 : float64 -> float32.

(** [float32(v.Float())]: [Value.Float] widens a 32-bit float to
    [float64] exactly, so the conversion gives it back; [None] is the
    panic of [Value.Float] on a value that is not of a float kind. *)
Definition Value_Float32 (v : value) : option float32 :=
  match v with
  | VFloat32 f => Some f
  | VFloat f => Some f
  | VFloat64 f => Some (float32_of_float64 f)
  | _ => None
  end.

Definition writeHeader (header : Z) : Enc W := WriteHeader header.

Definition paddingBuf : list byte := [x00; x00; x00].

Definition writePadded (data : list byte) : Enc W :=
  fun w =>
    match Write w data with
    | (w, Some err) => (w, Some err)
    | (w, None) =>
        let padding := 4 - (Z.of_nat (length data) mod 4) in
        if (0 <? padding) && (padding <? 4) then
          match Write w (firstn (Z.to_nat padding) paddingBuf) with
          | (w, Some err) => (w, Some err)
          | (w, None) => (w, None)
          end
        else (w, None)
    end.

Definition encodeStr (s : string) : Enc W :=
  (writeHeader StringType ;;
   let size := to_uint32 (Z.of_nat (String.length s)) in
   writeHeader size ;;
   writePadded (list_byte_of_string s))%enc.

Definition writeDictHeader (size : Z) : Enc W :=
  (writeHeader DictionaryType ;;
   let elements := to_uint32 size in
   let header := 0 in
   (* Set shared bit *)
   let header := Z.lor header 0x80000000 in
   (* Set element count *)
   let header := Z.lor header (Z.land 0x7FFFFFFF elements) in
   writeHeader header)%enc.

(** The hook branch of [encodeObj]. *)
Definition encodeMarshaler (m : list byte * option error) : Enc W :=
  let (data, err) := m in
  match err with
  | Some err => raise err
  | None => writePadded data
  end.

(** A [for i := 0; i < n; i++] loop over the elements: the first error
    ends it. *)
Definition forEach {A} (body : A -> Enc W) : list A -> Enc W :=
  fix loop (a : list A) : Enc W :=
    match a with
    | [] => done_
    | x :: a' => (body x ;; loop a')%enc
    end.

Definition encodeUIntegerArray (a : list value) : Enc W :=
  (writeHeader IntegerArrayType ;;
   let n := Z.of_nat (length a) in
   writeHeader (to_uint32 n) ;;
   forEach (fun x =>
     match Value_Uint x with
     | Some u => let intValue := to_int32 u in WriteInt32 intValue
     | None => raise (Panic "reflect: call of reflect.Value.Uint")
     end) a)%enc.

Definition encodeIntegerArray (a : list value) : Enc W :=
  (writeHeader IntegerArrayType ;;
   let n := Z.of_nat (length a) in
   writeHeader (to_uint32 n) ;;
   forEach (fun x =>
     match Value_Int x with
     | Some i => let intValue := to_int32 i in WriteInt32 intValue
     | None => raise (Panic "reflect: call of reflect.Value.Int")
     end) a)%enc.

Definition encodeFloatArray (a : list value) : Enc W :=
  (writeHeader FloatArrayType ;;
   let n := Z.of_nat (length a) in
   writeHeader (to_uint32 n) ;;
   forEach (fun x =>
     match Value_Float32 x with
     | Some floatValue => WriteFloat32 floatValue
     | None => raise (Panic "reflect: call of reflect.Value.Float")
     end) a)%enc.

(** The functions that call [encodeObj] back take it as an argument
    first; the knot is tied below. *)
Definition encodeGenericArray_of (encodeObj : value -> Enc W)
    (a : list value) : Enc W :=
  (writeHeader ArrayType ;;
   let n := Z.of_nat (length a) in
   let header := 0 in
   let header := Z.lor header 0x80000000 in
   let header := Z.lor header (Z.land (to_uint32 n) 0x7FFFFFFF) in
   writeHeader header ;;
   forEach encodeObj a)%enc.

Definition encodeSlice_of (encodeObj : value -> Enc W)
    (et : gotype) (a : list value) : Enc W :=
  match Type_Kind et with
  | reflect.Uint8 | reflect.Uint16 | reflect.Uint32 | reflect.Uint64 =>
      encodeUIntegerArray a
  | reflect.Int8 | reflect.Int16 | reflect.Int32 | reflect.Int64 =>
      encodeIntegerArray a
  | reflect.Float32 | reflect.Float64 =>
      encodeFloatArray a
  | _ => encodeGenericArray_of encodeObj a
  end.

(** A failure of [writeDictHeader] makes [encodeStruct] and [encodeMap]
    [return nil]. *)
Definition encodeStruct_of (encodeObj : value -> Enc W)
    (fields : list (string * value)) : Enc W :=
  fun w =>
    let n := Z.of_nat (length fields) in
    match writeDictHeader n w with
    | (w, Some err) => (w, None)
    | (w, None) =>
        forEach (fun f : string * value =>
          (encodeStr (fst f) ;;
           let value := snd f in
           encodeObj value)%enc) fields w
    end.

Definition encodeMap_of (encodeObj : value -> Enc W)
    (entries : list (value * value)) : Enc W :=
  fun w =>
    let keys := entries in
    let n := Z.of_nat (length keys) in
    match writeDictHeader n w with
    | (w, Some err) => (w, None)
    | (w, None) =>
        forEach (fun k : value * value =>
          (encodeObj (fst k) ;;
           let value := snd k in
           encodeObj value)%enc) keys w
    end.

Fixpoint encodeObj (v : value) : Enc W :=
  match MarshalVariant v with
  | Some m => encodeMarshaler m
  | None =>
      match v with
      | VInt k n =>
          match k with
          | reflect.Uint8 | reflect.Uint16 | reflect.Uint32 | reflect.Uint64
          | reflect.Int8 | reflect.Int16 | reflect.Int32 | reflect.Int64 =>
              (* i := v.Convert(integerType); return e.encodeObj(i):
                 Integer implements the hook *)
              let i := to_int32 n in
              encodeMarshaler (Integer_MarshalVariant i)
          | _ => raise (ErrUnsupportedKind k)
          end
      | VFloat32 x =>
          let f := x in
          encodeMarshaler (Float_MarshalVariant f)
      | VFloat64 x =>
          let f := float32_of_float64 x in
          encodeMarshaler (Float_MarshalVariant f)
      | VString s => encodeStr s
      | VSlice et a => encodeSlice_of encodeObj et a
      | VStruct fields => encodeStruct_of encodeObj fields
      | VMap _ _ entries => encodeMap_of encodeObj entries
      | _ => raise (ErrUnsupportedKind (Value_Kind v))
      end
  end.

Definition encodeGenericArray := encodeGenericArray_of encodeObj.
Definition encodeSlice := encodeSlice_of encodeObj.
Definition encodeStruct := encodeStruct_of encodeObj.
Definition encodeMap := encodeMap_of encodeObj.

(** [Encoder.Encode]: [reflect.ValueOf] unwraps the interface. *)
Definition Encode (i : value) : Enc W :=
  let v := i in
  encodeObj v.
End Encoder.

(** ** Decoder: from the stream to the dynamic value tree *)

(** What [decodeObj] returns in its [interface{}]. *)
Inductive obj :=
  | OString (s : string)                 (* string *)
  | OInteger (i : Z)                     (* gdvariant.Integer *)
  | OFloat (f : float32)                 (* gdvariant.Float *)
  | OVector3 (X Y Z : float32)           (* gdvariant.Vector3 *)
  | OInt32s (a : list Z)                 (* []int32 *)
  | OFloat32s (a : list float32)         (* []float32 *)
  | OArray (a : list obj)                (* []interface{} *)
  | ODict (d : gmap string obj).         (* map[string]interface{} *)

(** The [%T] of a node. *)
Definition TypeName (o : obj) : string :=
  match o with
  | OString _ => "string"
  | OInteger _ => "gdvariant.Integer"
  | OFloat _ => "gdvariant.Float"
  | OVector3 _ _ _ => "gdvariant.Vector3"
  | OInt32s _ => "[]int32"
  | OFloat32s _ => "[]float32"
  | OArray _ => "[]interface {}"
  | ODict _ => "map[string]interface {}"
  end.

(** [o.(fmt.Stringer)]: the [String] method of the node's type, when it has
    one.  No type that [decodeObj] returns declares one. *)
Definition Stringer (o : obj) : option string :=
  match o with
  | OString _ | OInteger _ | OFloat _ | OVector3 _ _ _
  | OInt32s _ | OFloat32s _ | OArray _ | ODict _ => None
  end.

Definition makeString (o : obj) : result string :=
  match o with
  | OString s => Ok s
  | _ =>
      match Stringer o with
      | Some s => Ok s
      | None => Err (ErrCannotConvert (TypeName o))
      end
  end.

(** [discardPadding] returns its read error; the stream moves on by what
    the read consumed. *)
Definition discardPadding (size : Z) (r : Reader) : option error * Reader :=
  let padding := 4 - (size mod 4) in
  if (0 <? padding) && (padding <? 4) then
    match ReadAtLeast (Z.to_nat padding) r with
    | (Ok _, r) => (None, r)
    | (Err err, r) => (Some err, r)
    | (OutOfFuel, r) => (None, r)
    end
  else (None, r).

(** [decodeStr] calls [discardPadding] and drops what it returns. *)
Definition decodeStr : Dec string :=
  (header <- readHeader ;;
   let size := header in
   str <- ReadAtLeast (Z.to_nat size) ;;
   fun r =>
     let (_, r) := discardPadding size r in
     (Ok (string_of_list_byte str), r))%dec.

(** [n] times [body], the results in order: the loops
    [a := make([]T, size); for i := range a { v, err := body; a[i] = v }]. *)
Fixpoint times {A} (n : nat) (body : Dec A) : Dec (list A) :=
  match n with
  | O => ret []
  | S n' => (v <- body ;; a <- times n' body ;; ret (v :: a))%dec
  end.

Definition decodeIntegerArray : Dec (list Z) :=
  (header <- readHeader ;;
   let size := header in
   times (Z.to_nat size) ReadInt32)%dec.

Definition decodeFloatArray : Dec (list float32) :=
  (header <- readHeader ;;
   let size := header in
   times (Z.to_nat size) ReadFloat32)%dec.

(** As in the encoder, the functions that call [decodeObj] back take it as
    an argument. *)
Definition decodeGenericArray_of (decodeObj : Dec obj) : Dec (list obj) :=
  (header <- readHeader ;;
   let size := Z.land header 0x7FFFFFFF in
   times (Z.to_nat size) decodeObj)%dec.

(** The loop of [decodeDict]: [n] more pairs into [d]. *)
Fixpoint decodeDict_loop (decodeObj : Dec obj) (n : nat)
    (d : gmap string obj) : Dec (gmap string obj) :=
  match n with
  | O => ret d
  | S n' =>
      (o <- decodeObj ;;
       k <- (fun r => (makeString o, r)) ;;
       v <- decodeObj ;;
       decodeDict_loop decodeObj n' (<[k := v]> d))%dec
  end.

Definition decodeDict_of (decodeObj : Dec obj) : Dec (gmap string obj) :=
  let d : gmap string obj := ∅ in
  (header <- readHeader ;;
   let elements := Z.land header 0x7FFFFFFF in
   decodeDict_loop decodeObj (Z.to_nat elements) d)%dec.

(** [binary.LittleEndian.PutUint32(b, typ)] in the [default] case works on
    the [uint32] that was read. *)
Fixpoint decodeObj (fuel : nat) : Dec obj :=
  match fuel with
  | O => fun r => (OutOfFuel, r)
  | S fuel =>
      (typ <- readHeader ;;
       if typ =? StringType then
         s <- decodeStr ;; ret (OString s)
       else if typ =? IntegerType then
         buf <- ReadAtLeast 4 ;;
         i <- (fun r => (Integer_UnmarshalVariant buf, r)) ;;
         ret (OInteger i)
       else if typ =? FloatType then
         buf <- ReadAtLeast 4 ;;
         f <- (fun r => (Float_UnmarshalVariant buf, r)) ;;
         ret (OFloat f)
       else if typ =? DictionaryType then
         d <- decodeDict_of (decodeObj fuel) ;; ret (ODict d)
       else if typ =? Vector3Type then
         buf <- ReadAtLeast 12 ;;
         v <- (fun r => (Vector3_UnmarshalVariant buf, r)) ;;
         ret (OVector3 (fst (fst v)) (snd (fst v)) (snd v))
       else if typ =? IntegerArrayType then
         a <- decodeIntegerArray ;; ret (OInt32s a)
       else if typ =? FloatArrayType then
         a <- decodeFloatArray ;; ret (OFloat32s a)
       else if typ =? ArrayType then
         a <- decodeGenericArray_of (decodeObj fuel) ;; ret (OArray a)
       else
         let b := PutUint32 typ in
         fail (ErrUnsupportedDecodeType typ b))%dec
  end.

Definition decodeDict (fuel : nat) := decodeDict_of (decodeObj fuel).
Definition decodeGenericArray (fuel : nat) :=
  decodeGenericArray_of (decodeObj fuel).

(** [Decoder.Decode].  The nesting of a stream is bounded by its length,
    which is the recursion bound given to [decodeObj].  The structural
    mapper [mapstructure.Decode] is a library outside the package: it is a
    parameter, a function of the node and of the destination's type to
    the value stored in the destination. *)
Section Decoder.
Variable mapstructure_Decode : obj -> gotype -> result value.

Definition Decode (i : gotype) : Dec value :=
  fun r =>
    match decodeObj (S (length r)) r with
    | (Ok o, r) => (mapstructure_Decode o i, r)
    | (Err err, r) => (Err err, r)
    | (OutOfFuel, r) => (OutOfFuel, r)
    end.
End Decoder.

(** ** Notions used by the properties *)

(** The tag codes that [decodeObj] has a case for. *)
Definition implemented_tags : list Z :=
  [IntegerType; FloatType; StringType; Vector3Type; DictionaryType;
   ArrayType; IntegerArrayType; FloatArrayType].

(** The padding after [len] bytes, as the specification words it:
    [4 - len mod 4] when the remainder is not zero, else none. *)
Definition padding_of (len : Z) : Z :=
  if len mod 4 =? 0 then 0 else 4 - len mod 4.

Definition in_int32 (n : Z) : bool := (- 2^31 <=? n) && (n <? 2^31).
Definition in_uint32 (n : Z) : bool := (0 <=? n) && (n <? 2^32).

(** The integer kinds of a fixed width: the ones [encodeObj] and
    [encodeSlice] list. *)
Definition fixed_width_int (k : reflect.Kind) : bool :=
  match k with
  | reflect.Uint8 | reflect.Uint16 | reflect.Uint32 | reflect.Uint64
  | reflect.Int8 | reflect.Int16 | reflect.Int32 | reflect.Int64 => true
  | _ => false
  end.

(** The mapping that a list of pairs builds when they are stored one after
    the other ([d[k] = v]). *)
Definition dict_of (kvs : list (string * obj)) : gmap string obj :=
  foldl (fun d kv => <[fst kv := snd kv]> d) ∅ kvs.

Definition int_of (v : value) : Z :=
  match v with VInt _ n => n | VInteger i => i | _ => 0 end.

Definition float_of (v : value) : float32 :=
  match v with VFloat32 f => f | VFloat f => f | _ => 0 end.

Definition key_of (v : value) : string :=
  match v with VString s => s | _ => "" end.

(** The dynamic value tree with the content of a value: the same numbers,
    texts, elements in order, and key/value pairs. *)
Fixpoint dynamic_tree (v : value) : obj :=
  match v with
  | VInt _ n => OInteger n
  | VInteger i => OInteger i
  | VFloat32 f => OFloat f
  | VFloat f => OFloat f
  | VString s => OString s
  | VVector3 X Y Z => OVector3 X Y Z
  | VSlice et a =>
      match Type_Kind et with
      | reflect.Uint8 | reflect.Uint16 | reflect.Uint32 | reflect.Uint64
      | reflect.Int8 | reflect.Int16 | reflect.Int32 | reflect.Int64 =>
          OInt32s (List.map int_of a)
      | reflect.Float32 | reflect.Float64 => OFloat32s (List.map float_of a)
      | _ => OArray (List.map dynamic_tree a)
      end
  | VStruct fields =>
      ODict (dict_of (List.map (fun f => (fst f, dynamic_tree (snd f))) fields))
  | VMap _ _ entries =>
      ODict (dict_of
        (List.map (fun e => (key_of (fst e), dynamic_tree (snd e))) entries))
  | _ => OArray []
  end.

(** The values that the wire format holds without loss: integers of a
    fixed-width kind within the 32-bit signed range, 32-bit floats, texts,
    the 3-float record, slices of these, structs, and mappings with text
    keys; lengths are below the limits of the header words. *)
Definition lossless_int (o : option Z) : bool :=
  match o with Some n => in_int32 n | None => false end.

Definition lossless_float32 (v : value) : bool :=
  match v with
  | VFloat32 f => in_uint32 f
  | VFloat f => in_uint32 f
  | _ => false
  end.

Definition short_text (s : string) : bool :=
  Z.of_nat (String.length s) <? 2^32.

Fixpoint lossless (v : value) : bool :=
  match v with
  | VInt k n => fixed_width_int k && in_int32 n
  | VInteger i => in_int32 i
  | VFloat32 f => in_uint32 f
  | VFloat f => in_uint32 f
  | VString s => short_text s
  | VVector3 X Y Z => in_uint32 X && in_uint32 Y && in_uint32 Z
  | VSlice et a =>
      match Type_Kind et with
      | reflect.Uint8 | reflect.Uint16 | reflect.Uint32 | reflect.Uint64 =>
          (Z.of_nat (length a) <? 2^32)
          && forallb (fun x => lossless_int (Value_Uint x)) a
      | reflect.Int8 | reflect.Int16 | reflect.Int32 | reflect.Int64 =>
          (Z.of_nat (length a) <? 2^32)
          && forallb (fun x => lossless_int (Value_Int x)) a
      | reflect.Float32 =>
          (Z.of_nat (length a) <? 2^32) && forallb lossless_float32 a
      | reflect.Float64 => false
      | _ => (Z.of_nat (length a) <? 2^31) && forallb lossless a
      end
  | VStruct fields =>
      (Z.of_nat (length fields) <? 2^31)
      && forallb (fun f => short_text (fst f) && lossless (snd f)) fields
  | VMap _ _ entries =>
      (Z.of_nat (length entries) <? 2^31)
      && forallb (fun e =>
           match fst e with
           | VString k => short_text k && lossless (snd e)
           | _ => false
           end) entries
  | _ => false
  end.

(** How deep the slices, structs and mappings of a value nest. *)
Fixpoint depth (v : value) : nat :=
  match v with
  | VSlice _ a => S (list_max (List.map depth a))
  | VStruct fields => S (list_max (List.map (fun f => depth (snd f)) fields))
  | VMap _ _ entries =>
      S (list_max (List.map (fun e => depth (snd e)) entries))
  | _ => 1
  end.



(** How the outcomes of two decoding steps compare when the second has the
    larger recursion bound, and what a step does to the stream. *)
Definition extends {A} (d1 d2 : Dec A) : Prop :=
  forall r, fst (d1 r) <> OutOfFuel -> d2 r = d1 r.

Definition shrinks {A} (d : Dec A) : Prop :=
  forall r, (length (snd (d r)) <= length r)%nat.

Definition safe {A} (d : Dec A) (r : Reader) : Prop :=
  fst (d r) <> OutOfFuel.

(** The bytes [encodeObj] writes for a value into an empty buffer, those of
    a text, and what it is for a value to be carried by the wire: it is
    encoded without error as these bytes, and they decode to its tree. *)
Definition wire (cvt : float64 -> float32) (v : value) : list byte :=
  fst (encodeObj cvt v ([] : list byte)).

Definition text_wire (s : string) : list byte :=
  PutUint32 StringType
    ++ PutUint32 (to_uint32 (Z.of_nat (String.length s)))
    ++ list_byte_of_string s
    ++ repeat x00 (Z.to_nat (padding_of (Z.of_nat (String.length s)))).

Definition encodes_as (cvt : float64 -> float32) (v : value)
    (bs : list byte) : Prop :=
  forall w : list byte, encodeObj cvt v w = (w ++ bs, None).

Definition transports (cvt : float64 -> float32) (fuel : nat) (v : value)
  : Prop :=
  encodes_as cvt v (wire cvt v) /\
  forall rest,
    decodeObj fuel (wire cvt v ++ rest) = (Ok (dynamic_tree v), rest).

Inductive slice_class := UintElems | IntElems | Float32Elems | Float64Elems
  | OtherElems.

Definition classify (k : reflect.Kind) : slice_class :=
  match k with
  | reflect.Uint8 | reflect.Uint16 | reflect.Uint32 | reflect.Uint64 =>
      UintElems
  | reflect.Int8 | reflect.Int16 | reflect.Int32 | reflect.Int64 => IntElems
  | reflect.Float32 => Float32Elems
  | reflect.Float64 => Float64Elems
  | _ => OtherElems
  end.


(** *** Notions of the further properties *)
(** A decoding step leaves a suffix of its stream. *)
Definition consumes_prefix {A} (d : Dec A) : Prop :=
  forall r, snd (d r) `suffix_of` r.

(** The nodes whose numbers are what the wire can hold: every integer an
    int32, every float a 32-bit pattern, at any depth. *)
Inductive obj_ok : obj -> Prop :=
  | ok_String s : obj_ok (OString s)
  | ok_Integer i : in_int32 i = true -> obj_ok (OInteger i)
  | ok_Float f : in_uint32 f = true -> obj_ok (OFloat f)
  | ok_Vector3 X Y Z :
      in_uint32 X = true -> in_uint32 Y = true -> in_uint32 Z = true ->
      obj_ok (OVector3 X Y Z)
  | ok_Int32s a : Forall (fun i => in_int32 i = true) a -> obj_ok (OInt32s a)
  | ok_Float32s a :
      Forall (fun f => in_uint32 f = true) a -> obj_ok (OFloat32s a)
  | ok_Array a : Forall obj_ok a -> obj_ok (OArray a)
  | ok_Dict (d : gmap string obj) :
      (forall k v, d !! k = Some v -> obj_ok v) -> obj_ok (ODict d).

(** The kinds that the switch of [encodeObj] has a case for. *)
Definition handled_kind (k : reflect.Kind) : bool :=
  match k with
  | reflect.Uint8 | reflect.Uint16 | reflect.Uint32 | reflect.Uint64
  | reflect.Int8 | reflect.Int16 | reflect.Int32 | reflect.Int64
  | reflect.Float32 | reflect.Float64 | reflect.String
  | reflect.Slice | reflect.Struct | reflect.Map => true
  | _ => false
  end.

(** An encoding step into a buffer that only appends, the same bytes and
    the same error whatever the buffer holds, a multiple of four bytes. *)
Definition tidy (e : Enc (list byte)) : Prop :=
  exists bs err,
    (forall w, e w = (w ++ bs, err)) /\ Z.of_nat (length bs) mod 4 = 0.

(** The values that hold other values. *)
Definition is_container (v : value) : bool :=
  match v with
  | VSlice _ _ | VStruct _ | VMap _ _ _ => true
  | _ => false
  end.

(** The error of [io.ReadAtLeast] on a stream that is too short: [io.EOF]
    when it is empty, [io.ErrUnexpectedEOF] otherwise. *)
Definition eof_error (r : list byte) : error :=
  match r with [] => EOF | _ :: _ => ErrUnexpectedEOF end.

(** * Properties *)

(** ** Little-endian words *)

Lemma land_255_bounds x : 0 <= Z.land x 255 <= 255.
Proof.
  change (Z.land x 255) with (Z.land x (Z.ones 8)).
  rewrite Z.land_ones by lia.
  change (2^8) with 256. pose proof (Z.mod_pos_bound x 256). lia.
Qed.

Lemma byte_to_Z_to_byte x : byte_to_Z (to_byte x) = Z.land x 255.
Proof.
  pose proof (land_255_bounds x) as Hb.
  unfold byte_to_Z, to_byte.
  destruct (Byte.of_N (Z.to_N (Z.land x 255))) as [b|] eqn:E.
  - apply Byte.to_of_N in E. rewrite E. apply Z2N.id. lia.
  - apply Byte.of_N_None_iff in E. lia.
Qed.

Lemma to_byte_byte_to_Z b : to_byte (byte_to_Z b) = b.
Proof.
  unfold to_byte, byte_to_Z.
  pose proof (Byte.to_N_bounded b) as Hb.
  change (Z.land (Z.of_N (Byte.to_N b)) 255)
    with (Z.land (Z.of_N (Byte.to_N b)) (Z.ones 8)).
  rewrite Z.land_ones by lia. change (2^8) with 256.
  rewrite Z.mod_small by lia. rewrite N2Z.id. now rewrite Byte.of_to_N.
Qed.

Lemma byte_to_Z_land b : byte_to_Z b = Z.land (byte_to_Z b) 255.
Proof. now rewrite <- byte_to_Z_to_byte, to_byte_byte_to_Z. Qed.

Lemma testbit_255 m : Z.testbit 255 m = (0 <=? m) && (m <? 8).
Proof.
  change 255 with (Z.ones 8).
  destruct (Z.leb_spec 0 m), (Z.ltb_spec m 8); cbn [andb].
  - apply Z.ones_spec_low. lia.
  - apply Z.ones_spec_high. lia.
  - apply Z.testbit_neg_r. lia.
  - apply Z.testbit_neg_r. lia.
Qed.

Lemma testbit_ones k m :
  0 <= k -> Z.testbit (Z.ones k) m = (0 <=? m) && (m <? k).
Proof.
  intros Hk.
  destruct (Z.leb_spec 0 m), (Z.ltb_spec m k); cbn [andb].
  - apply Z.ones_spec_low. lia.
  - apply Z.ones_spec_high. lia.
  - apply Z.testbit_neg_r. lia.
  - apply Z.testbit_neg_r. lia.
Qed.

(** Bit-by-bit equality of words built from masks and shifts by constants:
    the index is compared with every boundary that occurs. *)
Ltac bits_cases :=
  repeat match goal with
    | |- context [ ?a <=? ?b ] => destruct (Z.leb_spec a b)
    | |- context [ ?a <? ?b ] => destruct (Z.ltb_spec a b)
    end;
  try lia;
  cbn [andb orb xorb];
  rewrite ?andb_false_r, ?orb_false_r, ?andb_true_r, ?xorb_false_r;
  cbn [andb orb xorb];
  rewrite ?Z.shiftr_spec by lia;
  try reflexivity; try (f_equal; lia).

Ltac bitwise :=
  apply Z.bits_inj'; intros n Hn;
  repeat first
    [ rewrite Z.lor_spec | rewrite Z.land_spec | rewrite Z.lxor_spec
    | rewrite Z.shiftl_spec by lia | rewrite Z.shiftr_spec by lia
    | rewrite testbit_255 | rewrite testbit_ones by lia ];
  bits_cases.

Lemma length_PutUint32 v : length (PutUint32 v) = 4%nat.
Proof. reflexivity. Qed.

Lemma Uint32_PutUint32 v : Uint32 (PutUint32 v) = v mod 2^32.
Proof.
  unfold Uint32, PutUint32, index. cbn [nth].
  rewrite !byte_to_Z_to_byte.
  rewrite <- Z.land_ones by lia.
  bitwise.
Qed.

Lemma Uint32_PutUint32_small v : 0 <= v < 2^32 -> Uint32 (PutUint32 v) = v.
Proof. intros Hv. rewrite Uint32_PutUint32. now apply Z.mod_small. Qed.

Lemma to_byte_ext x y : Z.land x 255 = Z.land y 255 -> to_byte x = to_byte y.
Proof. intros Hxy. unfold to_byte. now rewrite Hxy. Qed.

Lemma PutUint32_Uint32 b0 b1 b2 b3 :
  PutUint32 (Uint32 [b0; b1; b2; b3]) = [b0; b1; b2; b3].
Proof.
  unfold Uint32, PutUint32, index. cbn [nth].
  rewrite (byte_to_Z_land b0), (byte_to_Z_land b1), (byte_to_Z_land b2),
    (byte_to_Z_land b3).
  set (x0 := byte_to_Z b0). set (x1 := byte_to_Z b1).
  set (x2 := byte_to_Z b2). set (x3 := byte_to_Z b3).
  rewrite <- (to_byte_byte_to_Z b0), <- (to_byte_byte_to_Z b1),
    <- (to_byte_byte_to_Z b2), <- (to_byte_byte_to_Z b3).
  fold x0 x1 x2 x3.
  set (U := Z.lor _ _).
  assert (H0 : to_byte U = to_byte x0)
    by (apply to_byte_ext; subst U; bitwise).
  assert (H1 : to_byte (Z.shiftr U 8) = to_byte x1)
    by (apply to_byte_ext; subst U; bitwise).
  assert (H2 : to_byte (Z.shiftr U 16) = to_byte x2)
    by (apply to_byte_ext; subst U; bitwise).
  assert (H3 : to_byte (Z.shiftr U 24) = to_byte x3)
    by (apply to_byte_ext; subst U; bitwise).
  now rewrite H0, H1, H2, H3.
Qed.

Lemma PutUint32_mod v : PutUint32 (v mod 2^32) = PutUint32 v.
Proof.
  unfold PutUint32. rewrite <- Z.land_ones by lia.
  f_equal; [|f_equal; [|f_equal; [|f_equal]]];
    apply to_byte_ext; bitwise.
Qed.

Lemma Uint32_range b : 0 <= Uint32 b < 2^32.
Proof.
  assert (E : Uint32 b = Z.land (Uint32 b) (Z.ones 32)).
  { unfold Uint32.
    rewrite (byte_to_Z_land (index b 0)), (byte_to_Z_land (index b 1)),
      (byte_to_Z_land (index b 2)), (byte_to_Z_land (index b 3)).
    bitwise. }
  rewrite E, Z.land_ones by lia. apply Z.mod_pos_bound. lia.
Qed.

Lemma to_int32_to_uint32 n : to_int32 (to_uint32 n) = to_int32 n.
Proof. unfold to_int32, to_uint32. now rewrite Z.mod_mod by lia. Qed.

Lemma to_int32_small n : in_int32 n = true -> to_int32 n = n.
Proof.
  unfold in_int32, to_int32. intros Hn.
  apply andb_true_iff in Hn as [H1 H2].
  apply Z.leb_le in H1. apply Z.ltb_lt in H2.
  change (2^31) with 2147483648 in *. change (2^32) with 4294967296.
  destruct (Z_lt_le_dec n 0).
  - rewrite <- (Z.mod_unique n 4294967296 (-1) (n + 4294967296)) by lia.
    destruct (Z.ltb_spec (n + 4294967296) 2147483648); lia.
  - rewrite Z.mod_small by lia.
    destruct (Z.ltb_spec n 2147483648); lia.
Qed.

Lemma in_uint32_spec n : in_uint32 n = true -> 0 <= n < 2^32.
Proof.
  unfold in_uint32. intros Hn. apply andb_true_iff in Hn as [H1 H2].
  apply Z.leb_le in H1. apply Z.ltb_lt in H2. lia.
Qed.

(** ** Reading from an in-memory stream *)

Lemma ReadAtLeast_app (bs rest : list byte) :
  ReadAtLeast (length bs) (bs ++ rest) = (Ok bs, rest).
Proof.
  destruct bs as [|b bs]; [reflexivity|].
  unfold ReadAtLeast. cbn [length app].
  change (b :: bs ++ rest) with ((b :: bs) ++ rest).
  match goal with
  | |- context [ (?x <? ?y)%nat ] => destruct (Nat.ltb_spec x y) as [Hlt|_]
  end.
  - rewrite length_app in Hlt. cbn [length] in Hlt. lia.
  - change (S (length bs)) with (length (b :: bs)).
    now rewrite take_app_length, drop_app_length.
Qed.

Lemma ReadAtLeast_exact (n : nat) (bs rest : list byte) :
  length bs = n -> ReadAtLeast n (bs ++ rest) = (Ok bs, rest).
Proof. intros <-. apply ReadAtLeast_app. Qed.

Lemma ReadAtLeast_short (n : nat) (r : list byte) :
  (length r < n)%nat ->
  ReadAtLeast n r = (Err (if decide (r = []) then EOF else ErrUnexpectedEOF), []).
Proof.
  intros Hlt. destruct n as [|n]; [lia|]. destruct r as [|b r]; [reflexivity|].
  unfold ReadAtLeast.
  destruct (Nat.ltb_spec (length (b :: r)) (S n)); [reflexivity | lia].
Qed.

Lemma readHeader_PutUint32 v rest :
  readHeader (PutUint32 v ++ rest) = (Ok (v mod 2^32), rest).
Proof.
  unfold readHeader, binary_Read_uint32, bind.
  rewrite (ReadAtLeast_exact 4 (PutUint32 v) rest) by reflexivity.
  unfold ret. now rewrite Uint32_PutUint32.
Qed.

Lemma readHeader_word b0 b1 b2 b3 rest :
  readHeader (b0 :: b1 :: b2 :: b3 :: rest)
  = (Ok (Uint32 [b0; b1; b2; b3]), rest).
Proof. reflexivity. Qed.

Lemma ReadInt32_PutUint32 i rest :
  in_int32 i = true ->
  ReadInt32 (PutUint32 (to_uint32 (to_int32 i)) ++ rest) = (Ok i, rest).
Proof.
  intros Hi. unfold ReadInt32, binary_Read_uint32, bind.
  rewrite (ReadAtLeast_exact 4 _ rest) by reflexivity.
  unfold ret. rewrite Uint32_PutUint32.
  change ((to_uint32 (to_int32 i)) mod 2^32)
    with (to_uint32 (to_uint32 (to_int32 i))).
  now rewrite !to_int32_to_uint32, !to_int32_small
    by (rewrite ?to_int32_small; assumption).
Qed.

Lemma ReadFloat32_PutUint32 f rest :
  in_uint32 f = true -> ReadFloat32 (PutUint32 f ++ rest) = (Ok f, rest).
Proof.
  intros Hf. unfold ReadFloat32, binary_Read_uint32, bind.
  rewrite (ReadAtLeast_exact 4 _ rest) by reflexivity.
  unfold ret, Float32frombits.
  now rewrite Uint32_PutUint32_small by now apply in_uint32_spec.
Qed.

(** ** Writing into a buffer *)

Lemma padding_of_cases len :
  0 <= len ->
  (len mod 4 = 0 /\ padding_of len = 0) \/
  (len mod 4 = 1 /\ padding_of len = 3) \/
  (len mod 4 = 2 /\ padding_of len = 2) \/
  (len mod 4 = 3 /\ padding_of len = 1).
Proof.
  intros Hlen. unfold padding_of.
  pose proof (Z.mod_pos_bound len 4 ltac:(lia)) as Hm.
  assert (Hc : len mod 4 = 0 \/ len mod 4 = 1 \/ len mod 4 = 2 \/ len mod 4 = 3)
    by lia.
  destruct Hc as [-> | [-> | [-> | ->]]]; cbn; tauto.
Qed.

Lemma padding_of_aligned len : 0 <= len -> (len + padding_of len) mod 4 = 0.
Proof.
  intros Hlen.
  rewrite (Z.div_mod len 4) at 1 by lia.
  destruct (padding_of_cases len Hlen) as [[-> ->] | [[-> ->] | [[-> ->] | [-> ->]]]].
  - rewrite !Z.add_0_r, Z.mul_comm. apply Z.mod_mul. lia.
  - replace (4 * (len / 4) + 1 + 3) with ((len / 4 + 1) * 4) by lia.
    apply Z.mod_mul. lia.
  - replace (4 * (len / 4) + 2 + 2) with ((len / 4 + 1) * 4) by lia.
    apply Z.mod_mul. lia.
  - replace (4 * (len / 4) + 3 + 1) with ((len / 4 + 1) * 4) by lia.
    apply Z.mod_mul. lia.
Qed.

Lemma WriteHeader_buffer (w : list byte) h :
  WriteHeader h w = (w ++ PutUint32 h, None).
Proof. reflexivity. Qed.

Lemma writePadded_buffer (data w : list byte) :
  writePadded data w
  = (w ++ data ++ repeat x00 (Z.to_nat (padding_of (Z.of_nat (length data)))),
     None).
Proof.
  unfold writePadded. cbn [Write Buffer_Writer].
  unfold Write, Buffer_Writer.
  destruct (padding_of_cases (Z.of_nat (length data)) ltac:(lia))
    as [[E ->] | [[E ->] | [[E ->] | [E ->]]]]; rewrite E; cbn;
    now rewrite <- ?app_assoc, ?app_nil_r.
Qed.

Lemma length_list_byte_of_string (s : string) :
  length (list_byte_of_string s) = String.length s.
Proof.
  unfold list_byte_of_string. rewrite length_map.
  induction s as [|c s IH]; cbn; [reflexivity | now rewrite IH].
Qed.

Lemma encodeStr_buffer (s : string) (w : list byte) :
  encodeStr s w
  = (w ++ PutUint32 StringType
       ++ PutUint32 (to_uint32 (Z.of_nat (String.length s)))
       ++ list_byte_of_string s
       ++ repeat x00 (Z.to_nat (padding_of (Z.of_nat (String.length s)))),
     None).
Proof.
  unfold encodeStr, andThen, writeHeader. rewrite !WriteHeader_buffer.
  rewrite writePadded_buffer.
  rewrite length_list_byte_of_string.
  now rewrite <- !app_assoc.
Qed.

Lemma encodeMarshaler_buffer (data w : list byte) :
  encodeMarshaler (data, None) w
  = (w ++ data ++ repeat x00 (Z.to_nat (padding_of (Z.of_nat (length data)))),
     None).
Proof. apply writePadded_buffer. Qed.

Lemma Integer_MarshalVariant_bytes i :
  Integer_MarshalVariant i
  = (PutUint32 IntegerType ++ PutUint32 (to_uint32 i), None).
Proof. reflexivity. Qed.

Lemma Float_MarshalVariant_bytes f :
  Float_MarshalVariant f = (PutUint32 FloatType ++ PutUint32 f, None).
Proof. reflexivity. Qed.

Lemma Vector3_MarshalVariant_bytes X Y Z :
  Vector3_MarshalVariant X Y Z
  = (PutUint32 Vector3Type ++ PutUint32 X ++ PutUint32 Y ++ PutUint32 Z, None).
Proof. reflexivity. Qed.

(** ** The extension hook has priority *)

(** C4: for a value whose type implements VariantMarshaler, Encode is the
    padded write of the hook's bytes and nothing else (on any writer); into
    a buffer that is the hook's bytes followed by the alignment padding; an
    error of the hook is returned with nothing written; and a Vector3 is
    written as tag 7 and its three float32 words, 16 bytes, not as a keyed
    record. *)
Theorem C4_hook_bytes_verbatim (float32_of_float64 : float64 -> float32) :
  (forall (W : Type) (HW : Writer W) v data,
      MarshalVariant v = Some (data, None) ->
      Encode float32_of_float64 v = writePadded (W := W) data) /\
  (forall v data (w : list byte),
      MarshalVariant v = Some (data, None) ->
      Encode float32_of_float64 v w
      = (w ++ data
           ++ repeat x00 (Z.to_nat (padding_of (Z.of_nat (length data)))),
         None)) /\
  (forall v data err (w : list byte),
      MarshalVariant v = Some (data, Some err) ->
      Encode float32_of_float64 v w = (w, Some err)) /\
  (forall X Y Z (w : list byte),
      Encode float32_of_float64 (VVector3 X Y Z) w
      = (w ++ PutUint32 Vector3Type
           ++ PutUint32 X ++ PutUint32 Y ++ PutUint32 Z,
         None)).
Proof.
  split; [|split; [|split]].
  - intros W HW v data Hm. unfold Encode.
    destruct v; cbn in Hm; try discriminate; cbn [encodeObj MarshalVariant];
      now rewrite ?Hm; inversion Hm.
  - intros v data w Hm. unfold Encode.
    destruct v; cbn in Hm; try discriminate; cbn [encodeObj MarshalVariant];
      rewrite ?Hm; inversion Hm; subst; apply encodeMarshaler_buffer.
  - intros v data err w Hm. unfold Encode.
    destruct v; cbn in Hm; try discriminate; cbn [encodeObj MarshalVariant];
      now inversion Hm.
  - intros X Y Z w. unfold Encode. cbn [encodeObj MarshalVariant].
    rewrite Vector3_MarshalVariant_bytes, encodeMarshaler_buffer.
    rewrite !length_app, !length_PutUint32.
    change (repeat x00 _) with (@nil byte). now rewrite app_nil_r.
Qed.

Lemma C4_hook_bytes_verbatim_witness :
  MarshalVariant (VForeign [x2a] None) = Some ([x2a], None) /\
  Encode (fun x => x) (VForeign [x2a] None) ([] : list byte)
  = ([x2a; x00; x00; x00], None).
Proof.
  split; [reflexivity|].
  exact (proj1 (proj2 (C4_hook_bytes_verbatim (fun x => x)))
           (VForeign [x2a] None) [x2a] [] eq_refl).
Defined.

(** ** Text is padded to a multiple of four *)

(** C5: after the text tag the encoder writes the length header, the raw
    bytes and zero padding; this region is 4 + L + padding bytes long, a
    multiple of 4, with padding 4 - L mod 4 when the remainder is not zero
    and 0 otherwise, for every length L. *)
Theorem C5_text_region_aligned (s : string) (w : list byte) :
  let L := Z.of_nat (String.length s) in
  let padding := if L mod 4 =? 0 then 0 else 4 - L mod 4 in
  let region :=
    PutUint32 (to_uint32 L) ++ list_byte_of_string s
      ++ repeat x00 (Z.to_nat padding) in
  encodeStr s w = (w ++ PutUint32 StringType ++ region, None) /\
  Z.of_nat (length region) = 4 + L + padding /\
  (4 + L + padding) mod 4 = 0.
Proof.
  intros L padding region. subst region padding.
  change (if L mod 4 =? 0 then 0 else 4 - L mod 4) with (padding_of L).
  split; [apply encodeStr_buffer|].
  assert (Hp : 0 <= padding_of L).
  { destruct (padding_of_cases L ltac:(lia)) as [[_ ->] | [[_ ->] | [[_ ->] | [_ ->]]]]; lia. }
  split.
  - rewrite !length_app, length_PutUint32, length_list_byte_of_string,
      repeat_length. subst L. lia.
  - replace (4 + L + padding_of L) with (L + padding_of L + 1 * 4) by lia.
    rewrite Z.mod_add by lia. apply padding_of_aligned. lia.
Qed.

(** ** Unimplemented tags are rejected *)

(** C6: when the first word of the stream is not one of the tags 2, 3, 4,
    7, 20, 21, 23, 24, decodeObj and Decode fail with the error that
    carries the tag and its four raw bytes; no value is returned. *)
Theorem C6_unimplemented_tag_rejected
    (fuel : nat) (b0 b1 b2 b3 : byte) (rest : list byte) :
  let typ := Uint32 [b0; b1; b2; b3] in
  ~ In typ implemented_tags ->
  decodeObj (S fuel) (b0 :: b1 :: b2 :: b3 :: rest)
  = (Err (ErrUnsupportedDecodeType typ [b0; b1; b2; b3]), rest) /\
  forall mapstructure_Decode i,
    Decode mapstructure_Decode i (b0 :: b1 :: b2 :: b3 :: rest)
    = (Err (ErrUnsupportedDecodeType typ [b0; b1; b2; b3]), rest).
Proof.
  intros typ Hnot.
  assert (E : forall f, decodeObj (S f) (b0 :: b1 :: b2 :: b3 :: rest)
                = (Err (ErrUnsupportedDecodeType typ [b0; b1; b2; b3]), rest)).
  { intros f. cbn [decodeObj]. unfold bind at 1. rewrite readHeader_word.
    fold typ. unfold implemented_tags in Hnot. cbn [In] in Hnot.
    repeat match goal with
    | |- context [ typ =? ?c ] =>
        destruct (Z.eqb_spec typ c) as [Heq|_];
          [exfalso; apply Hnot; symmetry in Heq; tauto|]
    end.
    unfold fail. subst typ. now rewrite PutUint32_Uint32. }
  split; [apply E|].
  intros m i. unfold Decode. now rewrite E.
Qed.

Lemma C6_unimplemented_tag_rejected_witness :
  ~ In (Uint32 [x01; x00; x00; x00]) implemented_tags /\
  decodeObj 1 [x01; x00; x00; x00; x2a]
  = (Err (ErrUnsupportedDecodeType 1 [x01; x00; x00; x00]), [x2a]).
Proof.
  assert (Hnot : ~ In (Uint32 [x01; x00; x00; x00]) implemented_tags).
  { vm_compute. intros H.
    repeat (destruct H as [H|H]; [discriminate H|]). exact H. }
  split; [exact Hnot|].
  exact (proj1 (C6_unimplemented_tag_rejected 0 x01 x00 x00 x00 [x2a] Hnot)).
Defined.

(** ** The shared bit of a header word *)

Lemma count_mask_mod h : Z.land (h mod 2^32) 0x7FFFFFFF = Z.land h 0x7FFFFFFF.
Proof.
  rewrite <- Z.land_ones by lia.
  change 0x7FFFFFFF with (Z.ones 31). bitwise.
Qed.

Lemma count_mask_flip h :
  Z.land (Z.lxor h 0x80000000) 0x7FFFFFFF = Z.land h 0x7FFFFFFF.
Proof.
  change 0x7FFFFFFF with (Z.ones 31). change 0x80000000 with (2^31).
  apply Z.bits_inj'. intros n Hn.
  rewrite !Z.land_spec, Z.lxor_spec, Z.pow2_bits_eqb, testbit_ones by lia.
  destruct (Z.eqb_spec 31 n) as [<-|_].
  - cbn. now rewrite !andb_false_r.
  - now rewrite xorb_false_r.
Qed.

Lemma decodeDict_header fuel h rest :
  decodeDict fuel (PutUint32 h ++ rest)
  = decodeDict_loop (decodeObj fuel) (Z.to_nat (Z.land h 0x7FFFFFFF)) ∅ rest.
Proof.
  unfold decodeDict, decodeDict_of, bind.
  now rewrite readHeader_PutUint32, count_mask_mod.
Qed.

Lemma decodeGenericArray_header fuel h rest :
  decodeGenericArray fuel (PutUint32 h ++ rest)
  = times (Z.to_nat (Z.land h 0x7FFFFFFF)) (decodeObj fuel) rest.
Proof.
  unfold decodeGenericArray, decodeGenericArray_of, bind.
  now rewrite readHeader_PutUint32, count_mask_mod.
Qed.

Lemma decodeObj_Dictionary fuel r :
  decodeObj (S fuel) (PutUint32 DictionaryType ++ r)
  = bind (decodeDict fuel) (fun d => ret (ODict d)) r.
Proof.
  cbn [decodeObj]. unfold bind at 1. now rewrite readHeader_PutUint32.
Qed.

Lemma decodeObj_Array fuel r :
  decodeObj (S fuel) (PutUint32 ArrayType ++ r)
  = bind (decodeGenericArray fuel) (fun a => ret (OArray a)) r.
Proof.
  cbn [decodeObj]. unfold bind at 1. now rewrite readHeader_PutUint32.
Qed.

(** C7: for a header word h of a keyed record or of a heterogeneous
    sequence the count is h & 0x7FFFFFFF, and the decoder does the same on
    h and on h with bit 31 flipped, for the two readers and for decodeObj
    on the streams that start with tag 20 or 21.  (The word on the wire is
    h mod 2^32, h itself for a uint32.) *)
Theorem C7_shared_bit_ignored (fuel : nat) (h : Z) (rest : list byte) :
  let h' := Z.lxor h 0x80000000 in
  decodeDict fuel (PutUint32 h ++ rest)
  = decodeDict_loop (decodeObj fuel) (Z.to_nat (Z.land h 0x7FFFFFFF)) ∅ rest /\
  decodeGenericArray fuel (PutUint32 h ++ rest)
  = times (Z.to_nat (Z.land h 0x7FFFFFFF)) (decodeObj fuel) rest /\
  decodeDict fuel (PutUint32 h' ++ rest)
  = decodeDict fuel (PutUint32 h ++ rest) /\
  decodeGenericArray fuel (PutUint32 h' ++ rest)
  = decodeGenericArray fuel (PutUint32 h ++ rest) /\
  decodeObj (S fuel) (PutUint32 DictionaryType ++ PutUint32 h' ++ rest)
  = decodeObj (S fuel) (PutUint32 DictionaryType ++ PutUint32 h ++ rest) /\
  decodeObj (S fuel) (PutUint32 ArrayType ++ PutUint32 h' ++ rest)
  = decodeObj (S fuel) (PutUint32 ArrayType ++ PutUint32 h ++ rest).
Proof.
  intros h'.
  assert (Ed : decodeDict fuel (PutUint32 h' ++ rest)
               = decodeDict fuel (PutUint32 h ++ rest)).
  { subst h'. now rewrite !decodeDict_header, count_mask_flip. }
  assert (Ea : decodeGenericArray fuel (PutUint32 h' ++ rest)
               = decodeGenericArray fuel (PutUint32 h ++ rest)).
  { subst h'. now rewrite !decodeGenericArray_header, count_mask_flip. }
  split; [apply decodeDict_header|].
  split; [apply decodeGenericArray_header|].
  split; [exact Ed|]. split; [exact Ea|].
  rewrite !decodeObj_Dictionary, !decodeObj_Array. unfold bind.
  now rewrite Ed, Ea.
Qed.

(** ** Text and its padding on decode *)

Lemma discardPadding_padded (size : Z) (p rest : list byte) :
  0 <= size -> Z.of_nat (length p) = padding_of size ->
  discardPadding size (p ++ rest) = (None, rest).
Proof.
  intros Hs Hp. unfold discardPadding.
  destruct (padding_of_cases size Hs) as [[E Ep] | [[E Ep] | [[E Ep] | [E Ep]]]];
    rewrite E; rewrite Ep in Hp; cbn [Z.sub Z.ltb Z.compare andb Z.opp Z.add
      Z.pos_sub Pos.compare Pos.compare_cont Z.succ_double Z.pred_double
      Z.double Pos.pred_double].
  - destruct p; [reflexivity | discriminate Hp].
  - now rewrite (ReadAtLeast_exact _ p rest) by lia.
  - now rewrite (ReadAtLeast_exact _ p rest) by lia.
  - now rewrite (ReadAtLeast_exact _ p rest) by lia.
Qed.

Lemma decodeStr_padded (s : string) (p rest : list byte) :
  let L := Z.of_nat (String.length s) in
  L < 2^32 -> Z.of_nat (length p) = padding_of L ->
  decodeStr (PutUint32 L ++ list_byte_of_string s ++ p ++ rest) = (Ok s, rest).
Proof.
  intros L HL Hp. unfold decodeStr, bind.
  rewrite readHeader_PutUint32, Z.mod_small by lia.
  rewrite (ReadAtLeast_exact _ (list_byte_of_string s))
    by (rewrite length_list_byte_of_string; subst L; lia).
  rewrite discardPadding_padded by (subst L; lia).
  now rewrite string_of_list_byte_of_string.
Qed.

Lemma decodeObj_String fuel r :
  decodeObj (S fuel) (PutUint32 StringType ++ r)
  = bind decodeStr (fun s => ret (OString s)) r.
Proof.
  cbn [decodeObj]. unfold bind at 1. now rewrite readHeader_PutUint32.
Qed.

(** C10: with L mod 4 <> 0, whatever the 4 - L mod 4 bytes after the text
    are, decodeStr (and decodeObj on the tagged stream) returns the text
    and leaves the stream after them. *)
Theorem C10_padding_bytes_not_inspected
    (fuel : nat) (s : string) (p rest : list byte) :
  let L := Z.of_nat (String.length s) in
  L < 2^32 -> L mod 4 <> 0 -> Z.of_nat (length p) = 4 - L mod 4 ->
  decodeStr (PutUint32 L ++ list_byte_of_string s ++ p ++ rest) = (Ok s, rest) /\
  decodeObj (S fuel)
    (PutUint32 StringType ++ PutUint32 L ++ list_byte_of_string s ++ p ++ rest)
  = (Ok (OString s), rest).
Proof.
  intros L HL Hm Hp.
  assert (E : decodeStr (PutUint32 L ++ list_byte_of_string s ++ p ++ rest)
              = (Ok s, rest)).
  { apply decodeStr_padded; [exact HL|]. fold L. unfold padding_of.
    destruct (Z.eqb_spec (L mod 4) 0); [contradiction | exact Hp]. }
  split; [exact E|].
  rewrite decodeObj_String. unfold bind. now rewrite E.
Qed.

Lemma C10_padding_bytes_not_inspected_witness :
  (Z.of_nat (String.length "a") < 2^32 /\
   Z.of_nat (String.length "a") mod 4 <> 0 /\
   Z.of_nat (length [xff; x01; x7f]) = 4 - Z.of_nat (String.length "a") mod 4) /\
  decodeObj 1
    (PutUint32 StringType ++ PutUint32 1 ++ list_byte_of_string "a"
       ++ [xff; x01; x7f] ++ [x2a])
  = (Ok (OString "a"), [x2a]).
Proof.
  assert (H1 : Z.of_nat (String.length "a") < 2^32) by (vm_compute; reflexivity).
  assert (H2 : Z.of_nat (String.length "a") mod 4 <> 0)
    by (vm_compute; discriminate).
  assert (H3 : Z.of_nat (length [xff; x01; x7f])
               = 4 - Z.of_nat (String.length "a") mod 4) by reflexivity.
  split; [auto|].
  exact (proj2 (C10_padding_bytes_not_inspected 0 "a" [xff; x01; x7f] [x2a]
                  H1 H2 H3)).
Defined.

(** The result of [discardPadding] has no part in what [decodeStr]
    returns: once the length and the bytes are read, the text is returned. *)
Lemma decodeStr_drops_padding_error (size : Z) (str r : list byte) :
  0 <= size < 2^32 -> length str = Z.to_nat size ->
  fst (decodeStr (PutUint32 size ++ str ++ r)) = Ok (string_of_list_byte str).
Proof.
  intros Hs Hl. unfold decodeStr, bind.
  rewrite readHeader_PutUint32, Z.mod_small by lia.
  rewrite (ReadAtLeast_exact _ str r) by lia.
  now destruct (discardPadding size r).
Qed.

(** C2: a text of length 1 needs three padding bytes.  On a stream that
    ends right after the text, and on one that ends after a single padding
    byte, discardPadding returns the read error (io.EOF,
    io.ErrUnexpectedEOF), yet decodeStr and decodeObj return the text with
    no error. *)
Theorem C2_padding_read_error_dropped :
  let text := PutUint32 1 ++ list_byte_of_string "a" in
  discardPadding 1 [] = (Some EOF, []) /\
  discardPadding 1 [x00] = (Some ErrUnexpectedEOF, []) /\
  decodeStr text = (Ok "a"%string, []) /\
  decodeStr (text ++ [x00]) = (Ok "a"%string, []) /\
  decodeObj 1 (PutUint32 StringType ++ text) = (Ok (OString "a"), []) /\
  decodeObj 1 (PutUint32 StringType ++ text ++ [x00]) = (Ok (OString "a"), []).
Proof. cbv zeta. repeat split; vm_compute; reflexivity. Qed.

(** ** Write errors while encoding *)

Section WriteErrors.
Context {W : Type} `{Writer W}.
Variable float32_of_float64 : float64 -> float32.

Lemma encodeStruct_drops_header_error fields (w w' : W) err :
  writeDictHeader (Z.of_nat (length fields)) w = (w', Some err) ->
  encodeStruct float32_of_float64 fields w = (w', None).
Proof.
  intros Hw. unfold encodeStruct, encodeStruct_of. now rewrite Hw.
Qed.

Lemma encodeMap_drops_header_error entries (w w' : W) err :
  writeDictHeader (Z.of_nat (length entries)) w = (w', Some err) ->
  encodeMap float32_of_float64 entries w = (w', None).
Proof.
  intros Hw. unfold encodeMap, encodeMap_of. now rewrite Hw.
Qed.

(** The sibling [encodeGenericArray] returns the error of its header. *)
Lemma encodeGenericArray_returns_header_error a (w w' : W) err :
  writeHeader ArrayType w = (w', Some err) ->
  encodeGenericArray float32_of_float64 a w = (w', Some err).
Proof.
  intros Hw. unfold encodeGenericArray, encodeGenericArray_of, andThen.
  now rewrite Hw.
Qed.
End WriteErrors.

(** C3: into a writer with no room (the tag of the record cannot be
    written) and into one with room for four bytes (the tag is written, the
    header word cannot), writeDictHeader fails with io.ErrShortWrite, and
    Encode of a struct and of a mapping returns nil; Encode of a slice of
    texts returns the error on the same writers. *)
Theorem C3_dict_header_error_dropped (float32_of_float64 : float64 -> float32) :
  let full := {| lw_out := []; lw_room := 0 |} in
  let room4 := {| lw_out := []; lw_room := 4 |} in
  let after4 := {| lw_out := PutUint32 DictionaryType; lw_room := 0 |} in
  let s := VStruct [("A"%string, VString "x")] in
  let m := VMap (TBasic reflect.String) (TBasic reflect.String)
             [(VString "k", VString "x")] in
  let a := VSlice (TBasic reflect.String) [VString "x"] in
  writeDictHeader 1 full = (full, Some ErrShortWrite) /\
  writeDictHeader 1 room4 = (after4, Some ErrShortWrite) /\
  Encode float32_of_float64 s full = (full, None) /\
  Encode float32_of_float64 s room4 = (after4, None) /\
  Encode float32_of_float64 m full = (full, None) /\
  Encode float32_of_float64 m room4 = (after4, None) /\
  Encode float32_of_float64 a full = (full, Some ErrShortWrite).
Proof. cbv zeta. repeat split; vm_compute; reflexivity. Qed.

(** ** Integers on the wire *)

Lemma to_uint32_to_int32 n : to_uint32 (to_int32 n) = n mod 2^32.
Proof.
  unfold to_uint32, to_int32.
  pose proof (Z.mod_pos_bound n (2^32) ltac:(lia)) as Hb.
  destruct (Z.ltb_spec (n mod 2^32) (2^31)).
  - now rewrite Z.mod_mod by lia.
  - symmetry. apply Z.mod_unique with (q := -1); lia.
Qed.

Lemma WriteInt32_buffer (w : list byte) i :
  WriteInt32 i w = (w ++ PutUint32 (to_uint32 i), None).
Proof. reflexivity. Qed.

Lemma forEach_buffer {A} (body : A -> Enc (list byte)) (out : A -> list byte)
    (a : list A) (w : list byte) :
  (forall x w, In x a -> body x w = (w ++ out x, None)) ->
  forEach body a w = (w ++ concat (List.map out a), None).
Proof.
  revert w. induction a as [|x a IH]; intros w Hb.
  - cbn. now rewrite app_nil_r.
  - cbn [forEach List.map concat]. unfold andThen.
    rewrite Hb by (left; reflexivity).
    rewrite IH by (intros; apply Hb; right; assumption).
    now rewrite <- app_assoc.
Qed.

(** What [encodeObj] writes for a scalar integer of a fixed-width kind and
    for a slice of them. *)
Lemma encodeObj_fixed_width_int cvt k n (w : list byte) :
  fixed_width_int k = true ->
  encodeObj cvt (VInt k n) w
  = (w ++ PutUint32 IntegerType ++ PutUint32 (n mod 2^32), None).
Proof.
  intros Hk. destruct k; try discriminate Hk; cbn [encodeObj MarshalVariant];
    rewrite Integer_MarshalVariant_bytes, encodeMarshaler_buffer,
      to_uint32_to_int32;
    change (repeat x00 _) with (@nil byte); now rewrite app_nil_r.
Qed.

Lemma encodeSlice_fixed_width_int cvt k (ns : list Z) (w : list byte) :
  fixed_width_int k = true ->
  encodeObj cvt (VSlice (TBasic k) (List.map (VInt k) ns)) w
  = (w ++ PutUint32 IntegerArrayType
       ++ PutUint32 (to_uint32 (Z.of_nat (length ns)))
       ++ concat (List.map (fun n => PutUint32 (n mod 2^32)) ns),
     None).
Proof.
  intros Hk.
  assert (Ebody : forall (body : value -> Enc (list byte)),
    (forall n w, body (VInt k n) w = (w ++ PutUint32 (n mod 2^32), None)) ->
    forall w, forEach body (List.map (VInt k) ns) w
              = (w ++ concat (List.map (fun n => PutUint32 (n mod 2^32)) ns),
                 None)).
  { intros body Hbody w0.
    rewrite (forEach_buffer body
               (fun x => PutUint32 (int_of x mod 2^32))).
    - now rewrite List.map_map.
    - intros x w1 Hx. apply List.in_map_iff in Hx as [n [<- _]]. apply Hbody. }
  destruct k; try discriminate Hk;
    cbn [encodeObj MarshalVariant encodeSlice_of Type_Kind];
    unfold encodeUIntegerArray, encodeIntegerArray, andThen, writeHeader;
    rewrite !WriteHeader_buffer, length_map;
    (rewrite Ebody;
     [ now rewrite <- !app_assoc
     | intros n w0; cbn [Value_Uint Value_Int is_signed is_unsigned];
       now rewrite WriteInt32_buffer, to_uint32_to_int32 ]).
Qed.

(** C8 (as amended): an integer of a fixed-width kind (int8, int16, int32,
    int64, uint8, uint16, uint32, uint64) is written, as a scalar after tag
    2 and as an element of a homogeneous sequence after tag 23 and the
    count, as the little-endian word of its low 32 bits, and the encoder
    returns no error. *)
Theorem C8_fixed_width_integer_low_32_bits
    (float32_of_float64 : float64 -> float32)
    (k : reflect.Kind) (n : Z) (ns : list Z) (w : list byte) :
  fixed_width_int k = true ->
  Encode float32_of_float64 (VInt k n) w
  = (w ++ PutUint32 IntegerType ++ PutUint32 (n mod 2^32), None) /\
  Encode float32_of_float64 (VSlice (TBasic k) (List.map (VInt k) ns)) w
  = (w ++ PutUint32 IntegerArrayType
       ++ PutUint32 (to_uint32 (Z.of_nat (length ns)))
       ++ concat (List.map (fun n => PutUint32 (n mod 2^32)) ns),
     None).
Proof.
  intros Hk. unfold Encode. split.
  - now apply encodeObj_fixed_width_int.
  - now apply encodeSlice_fixed_width_int.
Qed.

Lemma C8_fixed_width_integer_low_32_bits_witness :
  fixed_width_int reflect.Uint64 = true /\
  Encode (fun x => x) (VInt reflect.Uint64 (2^32 + 5)) ([] : list byte)
  = (PutUint32 IntegerType ++ PutUint32 5, None).
Proof.
  split; [reflexivity|].
  exact (proj1 (C8_fixed_width_integer_low_32_bits (fun x => x)
                  reflect.Uint64 (2^32 + 5) [] [] eq_refl)).
Defined.

(** The claim C8 as stated fails on Go's [int]: Encode of an [int], and of
    a slice of [int], returns the error "unsupported kind int". *)
Lemma C8_plain_int_rejected :
  Encode (fun x => x) (VInt reflect.Int 5) ([] : list byte)
  = ([], Some (ErrUnsupportedKind reflect.Int)) /\
  snd (Encode (fun x => x)
         (VSlice (TBasic reflect.Int) [VInt reflect.Int 5]) ([] : list byte))
  = Some (ErrUnsupportedKind reflect.Int).
Proof. split; vm_compute; reflexivity. Qed.

(** ** The recursion bound of the decoder

    [decodeObj] recurses on a bound.  A larger bound changes no outcome
    other than [OutOfFuel]; every step leaves a stream that is no longer;
    and a bound above the length of the stream is never exhausted.  So the
    bound that [Decode] passes is enough. *)

Lemma extends_refl {A} (d : Dec A) : extends d d.
Proof. now intros r _. Qed.

Lemma bind_extends {A B} (m1 m2 : Dec A) (k1 k2 : A -> Dec B) :
  extends m1 m2 -> (forall a, extends (k1 a) (k2 a)) ->
  extends (bind m1 k1) (bind m2 k2).
Proof.
  intros Hm Hk r. unfold bind. intros Hsafe.
  rewrite Hm by (destruct (m1 r) as [[a| e |] r']; cbn in *; congruence).
  destruct (m1 r) as [[a| e |] r']; try reflexivity.
  now apply Hk.
Qed.

Lemma times_extends {A} (d1 d2 : Dec A) n :
  extends d1 d2 -> extends (times n d1) (times n d2).
Proof.
  intros Hd. induction n as [|n IH]; [apply extends_refl|].
  cbn [times]. apply bind_extends; [exact Hd|]. intros v.
  apply bind_extends; [exact IH|]. intros a. apply extends_refl.
Qed.

Lemma decodeDict_loop_extends (d1 d2 : Dec obj) n :
  extends d1 d2 ->
  forall d, extends (decodeDict_loop d1 n d) (decodeDict_loop d2 n d).
Proof.
  intros Hd. induction n as [|n IH]; intros d; [apply extends_refl|].
  cbn [decodeDict_loop]. apply bind_extends; [exact Hd|]. intros o.
  apply bind_extends; [apply extends_refl|]. intros k.
  apply bind_extends; [exact Hd|]. intros v. apply IH.
Qed.

Lemma decodeObj_S_extends fuel : extends (decodeObj fuel) (decodeObj (S fuel)).
Proof.
  induction fuel as [|fuel IH].
  - intros r Hsafe. now contradiction Hsafe.
  - change (decodeObj (S (S fuel))) with
      (fun r => decodeObj (S (S fuel)) r).
    cbn [decodeObj]. apply bind_extends; [apply extends_refl|]. intros typ.
    repeat match goal with
    | |- context [ typ =? ?c ] => destruct (typ =? c)
    end; try apply extends_refl.
    + apply bind_extends; [|intros; apply extends_refl].
      unfold decodeDict_of. apply bind_extends; [apply extends_refl|].
      intros header. now apply decodeDict_loop_extends.
    + apply bind_extends; [|intros; apply extends_refl].
      unfold decodeGenericArray_of. apply bind_extends; [apply extends_refl|].
      intros header. now apply times_extends.
Qed.

Lemma decodeObj_le_extends f f' :
  (f <= f')%nat -> extends (decodeObj f) (decodeObj f').
Proof.
  induction 1 as [|f' Hle IH]; [apply extends_refl|].
  intros r Hsafe. rewrite <- (IH r Hsafe).
  apply decodeObj_S_extends. now rewrite (IH r Hsafe).
Qed.

Lemma ret_shrinks {A} (a : A) : shrinks (ret a).
Proof. intros r. cbn. lia. Qed.

Lemma fail_shrinks {A} e : shrinks (@fail A e).
Proof. intros r. cbn. lia. Qed.

Lemma bind_shrinks {A B} (m : Dec A) (k : A -> Dec B) :
  shrinks m -> (forall a, shrinks (k a)) -> shrinks (bind m k).
Proof.
  intros Hm Hk r. unfold bind. specialize (Hm r).
  destruct (m r) as [[a| e |] r']; cbn in *; try lia.
  specialize (Hk a r'). lia.
Qed.

Lemma ReadAtLeast_shrinks n : shrinks (ReadAtLeast n).
Proof.
  intros r. unfold ReadAtLeast. destruct n; [cbn; lia|].
  destruct r as [|b r]; [cbn; lia|].
  destruct (length (b :: r) <? S n)%nat; cbn [snd]; [cbn; lia|].
  rewrite length_drop. lia.
Qed.

Lemma lift_shrinks {A} (x : result A) : shrinks (fun r => (x, r)).
Proof. intros r. cbn. lia. Qed.

Lemma readHeader_shrinks : shrinks readHeader.
Proof.
  apply bind_shrinks; [apply ReadAtLeast_shrinks | intros; apply ret_shrinks].
Qed.

Lemma decodeStr_shrinks : shrinks decodeStr.
Proof.
  unfold decodeStr. apply bind_shrinks; [apply readHeader_shrinks|].
  intros header. apply bind_shrinks; [apply ReadAtLeast_shrinks|].
  intros str r. unfold discardPadding.
  destruct (_ && _); [|cbn; lia].
  pose proof (ReadAtLeast_shrinks (Z.to_nat (4 - header mod 4)) r) as Hs.
  destruct (ReadAtLeast _ r) as [[a| e |] r']; cbn in *; lia.
Qed.

Lemma times_shrinks {A} (d : Dec A) n : shrinks d -> shrinks (times n d).
Proof.
  intros Hd. induction n as [|n IH]; [apply ret_shrinks|].
  cbn [times]. apply bind_shrinks; [exact Hd|]. intros v.
  apply bind_shrinks; [exact IH|]. intros; apply ret_shrinks.
Qed.

Lemma decodeDict_loop_shrinks (dec : Dec obj) n :
  shrinks dec -> forall d, shrinks (decodeDict_loop dec n d).
Proof.
  intros Hd. induction n as [|n IH]; intros d; [apply ret_shrinks|].
  cbn [decodeDict_loop]. apply bind_shrinks; [exact Hd|]. intros o.
  apply bind_shrinks; [apply lift_shrinks|]. intros k.
  apply bind_shrinks; [exact Hd|]. intros v. apply IH.
Qed.

Lemma decodeObj_shrinks fuel : shrinks (decodeObj fuel).
Proof.
  induction fuel as [|fuel IH]; [intros r; cbn; lia|].
  change (decodeObj (S fuel)) with (fun r => decodeObj (S fuel) r).
  cbn [decodeObj]. apply bind_shrinks; [apply readHeader_shrinks|].
  intros typ.
  repeat match goal with
  | |- context [ typ =? ?c ] => destruct (typ =? c)
  end;
    repeat first
      [ apply fail_shrinks | apply ret_shrinks | apply lift_shrinks
      | apply decodeStr_shrinks | apply ReadAtLeast_shrinks
      | apply readHeader_shrinks
      | apply times_shrinks | apply decodeDict_loop_shrinks | exact IH
      | apply bind_shrinks | intro ].
Qed.

Lemma bind_safe {A B} (m : Dec A) (k : A -> Dec B) r :
  safe m r -> (forall a r', m r = (Ok a, r') -> safe (k a) r') ->
  safe (bind m k) r.
Proof.
  unfold safe, bind. intros Hm Hk.
  destruct (m r) as [[a| e |] r']; cbn in *; try congruence.
  now apply Hk.
Qed.

Ltac ret_safe := intros; unfold safe, ret, fail; cbn; discriminate.

Lemma ReadAtLeast_safe n r : safe (ReadAtLeast n) r.
Proof.
  unfold safe, ReadAtLeast. destruct n; [discriminate|].
  destruct r as [|b r]; [discriminate|].
  destruct (length (b :: r) <? S n)%nat; discriminate.
Qed.

Lemma readHeader_safe r : safe readHeader r.
Proof.
  apply bind_safe; [apply ReadAtLeast_safe | discriminate].
Qed.

Lemma readHeader_Ok_length r h r' :
  readHeader r = (Ok h, r') -> (length r' < length r)%nat.
Proof.
  unfold readHeader, binary_Read_uint32, bind, ReadAtLeast.
  destruct r as [|b r]; [discriminate|].
  destruct (Nat.ltb_spec (length (b :: r)) 4); [discriminate|].
  unfold ret. intros [= _ <-]. rewrite length_drop. cbn [length] in *. lia.
Qed.

Lemma decodeStr_safe r : safe decodeStr r.
Proof.
  unfold decodeStr. apply bind_safe; [apply readHeader_safe|].
  intros header r1 _. apply bind_safe; [apply ReadAtLeast_safe|].
  intros str r2 _. unfold safe. now destruct (discardPadding header r2).
Qed.

Lemma times_safe {A} (d : Dec A) (m : nat) :
  shrinks d -> (forall r, (length r < m)%nat -> safe d r) ->
  forall n r, (length r < m)%nat -> safe (times n d) r.
Proof.
  intros Hs Hd. induction n as [|n IH]; intros r Hr; [discriminate|].
  cbn [times]. apply bind_safe; [now apply Hd|].
  intros v r1 E1. pose proof (Hs r) as Hl. rewrite E1 in Hl. cbn in Hl.
  apply bind_safe; [apply IH; lia | discriminate].
Qed.

Lemma makeString_safe o : makeString o <> OutOfFuel.
Proof. destruct o; discriminate. Qed.

Lemma decodeDict_loop_safe (dec : Dec obj) (m : nat) :
  shrinks dec -> (forall r, (length r < m)%nat -> safe dec r) ->
  forall n d r, (length r < m)%nat -> safe (decodeDict_loop dec n d) r.
Proof.
  intros Hs Hd. induction n as [|n IH]; intros d r Hr; [discriminate|].
  cbn [decodeDict_loop]. apply bind_safe; [now apply Hd|].
  intros o r1 E1. pose proof (Hs r) as Hl1. rewrite E1 in Hl1. cbn in Hl1.
  apply bind_safe; [apply makeString_safe|].
  intros k r2 [= _ <-].
  apply bind_safe; [apply Hd; lia|].
  intros v r3 E3. pose proof (Hs r1) as Hl3. rewrite E3 in Hl3. cbn in Hl3.
  apply IH. lia.
Qed.

Lemma decodeObj_safe fuel r : (length r < fuel)%nat -> safe (decodeObj fuel) r.
Proof.
  revert r. induction fuel as [|fuel IH]; intros r Hr; [lia|].
  cbn [decodeObj]. apply bind_safe; [apply readHeader_safe|].
  intros typ r1 E1. apply readHeader_Ok_length in E1.
  repeat match goal with
  | |- context [ typ =? ?c ] => destruct (typ =? c)
  end.
  - apply bind_safe; [apply decodeStr_safe | ret_safe].
  - apply bind_safe; [apply ReadAtLeast_safe|]. intros buf r2 _.
    apply bind_safe; [|ret_safe].
    unfold safe, Integer_UnmarshalVariant; cbn [fst].
    destruct (_ <? _)%nat; discriminate.
  - apply bind_safe; [apply ReadAtLeast_safe|]. intros buf r2 _.
    apply bind_safe; [|ret_safe].
    unfold safe, Float_UnmarshalVariant; cbn [fst].
    destruct (_ <? _)%nat; discriminate.
  - apply bind_safe; [|ret_safe].
    unfold decodeDict_of. apply bind_safe; [apply readHeader_safe|].
    intros header r2 E2. apply readHeader_Ok_length in E2.
    apply (decodeDict_loop_safe _ fuel);
      [apply decodeObj_shrinks | exact IH | lia].
  - apply bind_safe; [apply ReadAtLeast_safe|]. intros buf r2 _.
    apply bind_safe; [|ret_safe].
    unfold safe, Vector3_UnmarshalVariant; cbn [fst].
    destruct (_ <? _)%nat; discriminate.
  - apply bind_safe; [|ret_safe].
    unfold decodeIntegerArray. apply bind_safe; [apply readHeader_safe|].
    intros header r2 _. apply (times_safe _ (S (length r2)));
      [ | | lia].
    + apply bind_shrinks; [|intros; apply ret_shrinks].
      apply (bind_shrinks (ReadAtLeast 4)); [apply ReadAtLeast_shrinks|].
      intros; apply ret_shrinks.
    + intros r3 _. apply bind_safe; [|ret_safe].
      apply (bind_safe (ReadAtLeast 4)); [apply ReadAtLeast_safe|ret_safe].
  - apply bind_safe; [|ret_safe].
    unfold decodeFloatArray. apply bind_safe; [apply readHeader_safe|].
    intros header r2 _. apply (times_safe _ (S (length r2)));
      [ | | lia].
    + apply bind_shrinks; [|intros; apply ret_shrinks].
      apply (bind_shrinks (ReadAtLeast 4)); [apply ReadAtLeast_shrinks|].
      intros; apply ret_shrinks.
    + intros r3 _. apply bind_safe; [|ret_safe].
      apply (bind_safe (ReadAtLeast 4)); [apply ReadAtLeast_safe|ret_safe].
  - apply bind_safe; [|ret_safe].
    unfold decodeGenericArray_of. apply bind_safe; [apply readHeader_safe|].
    intros header r2 E2. apply readHeader_Ok_length in E2.
    apply (times_safe _ fuel); [apply decodeObj_shrinks | exact IH | lia].
  - ret_safe.
Qed.

(** Any bound that gives an outcome gives the outcome of the bound that
    [Decode] uses. *)
Lemma decodeObj_adequate fuel r res r' :
  decodeObj fuel r = (res, r') -> res <> OutOfFuel ->
  decodeObj (S (length r)) r = (res, r').
Proof.
  intros E Hres.
  destruct (Nat.le_gt_cases fuel (S (length r))) as [Hle|Hgt].
  - rewrite (decodeObj_le_extends _ _ Hle r); [exact E|]. now rewrite E.
  - rewrite <- E. symmetry.
    apply (decodeObj_le_extends (S (length r)) fuel); [lia|].
    apply decodeObj_safe. lia.
Qed.

(** [Decode] never stops for lack of fuel. *)
Lemma Decode_total mapstructure_Decode i r :
  (forall o t, mapstructure_Decode o t <> OutOfFuel) ->
  fst (Decode mapstructure_Decode i r) <> OutOfFuel.
Proof.
  intros Hm. unfold Decode.
  pose proof (decodeObj_safe (S (length r)) r ltac:(lia)) as Hs.
  unfold safe in Hs.
  destruct (decodeObj (S (length r)) r) as [[o| e |] r']; cbn in *;
    [apply Hm | discriminate | congruence].
Qed.



(** ** Keys of a keyed record *)





(** ** Round trip *)

Ltac pow_lia :=
  change (2^32) with 4294967296 in *; change (2^31) with 2147483648 in *; lia.

Lemma Integer_UnmarshalVariant_PutUint32 x :
  Integer_UnmarshalVariant (PutUint32 x) = Ok (to_int32 x).
Proof.
  unfold Integer_UnmarshalVariant, Int32FromBytes.
  change (firstn 4 (PutUint32 x)) with (PutUint32 x).
  rewrite Uint32_PutUint32. change (x mod 2^32) with (to_uint32 x).
  now rewrite to_int32_to_uint32.
Qed.

Lemma Float_UnmarshalVariant_PutUint32 f :
  Float_UnmarshalVariant (PutUint32 f) = Ok (f mod 2^32).
Proof.
  unfold Float_UnmarshalVariant, Float32FromBytes, Float32frombits.
  change (firstn 4 (PutUint32 f)) with (PutUint32 f).
  now rewrite Uint32_PutUint32.
Qed.

Lemma Vector3_UnmarshalVariant_PutUint32 X Y Z :
  Vector3_UnmarshalVariant (PutUint32 X ++ PutUint32 Y ++ PutUint32 Z)
  = Ok (X mod 2^32, Y mod 2^32, Z mod 2^32).
Proof.
  unfold Vector3_UnmarshalVariant, Float32FromBytes, Float32frombits.
  change (firstn 4 (PutUint32 X ++ PutUint32 Y ++ PutUint32 Z))
    with (PutUint32 X).
  change (firstn 4 (skipn 4 (PutUint32 X ++ PutUint32 Y ++ PutUint32 Z)))
    with (PutUint32 Y).
  change (firstn 4 (skipn 8 (PutUint32 X ++ PutUint32 Y ++ PutUint32 Z)))
    with (PutUint32 Z).
  now rewrite !Uint32_PutUint32.
Qed.

Lemma decodeObj_Integer fuel i rest :
  in_int32 i = true ->
  decodeObj (S fuel) (PutUint32 IntegerType ++ PutUint32 (to_uint32 i) ++ rest)
  = (Ok (OInteger i), rest).
Proof.
  intros Hi. cbn [decodeObj]. unfold bind at 1.
  rewrite readHeader_PutUint32.
  change (IntegerType mod 2^32) with 2.
  change (2 =? StringType) with false. change (2 =? IntegerType) with true.
  cbv iota. unfold bind.
  rewrite (ReadAtLeast_exact 4 (PutUint32 (to_uint32 i)) rest) by reflexivity.
  rewrite Integer_UnmarshalVariant_PutUint32, to_int32_to_uint32.
  unfold ret. now rewrite to_int32_small.
Qed.

Lemma decodeObj_Float fuel f rest :
  in_uint32 f = true ->
  decodeObj (S fuel) (PutUint32 FloatType ++ PutUint32 f ++ rest)
  = (Ok (OFloat f), rest).
Proof.
  intros Hf. cbn [decodeObj]. unfold bind at 1.
  rewrite readHeader_PutUint32.
  change (FloatType mod 2^32) with 3.
  change (3 =? StringType) with false. change (3 =? IntegerType) with false.
  change (3 =? FloatType) with true.
  cbv iota. unfold bind.
  rewrite (ReadAtLeast_exact 4 (PutUint32 f) rest) by reflexivity.
  rewrite Float_UnmarshalVariant_PutUint32.
  unfold ret. now rewrite Z.mod_small by now apply in_uint32_spec.
Qed.

Lemma decodeObj_Vector3 fuel X Y Z rest :
  in_uint32 X = true -> in_uint32 Y = true -> in_uint32 Z = true ->
  decodeObj (S fuel)
    (PutUint32 Vector3Type ++ PutUint32 X ++ PutUint32 Y ++ PutUint32 Z ++ rest)
  = (Ok (OVector3 X Y Z), rest).
Proof.
  intros HX HY HZ. cbn [decodeObj]. unfold bind at 1.
  rewrite readHeader_PutUint32.
  change (Vector3Type mod 2^32) with 7.
  change (7 =? StringType) with false. change (7 =? IntegerType) with false.
  change (7 =? FloatType) with false. change (7 =? DictionaryType) with false.
  change (7 =? Vector3Type) with true.
  cbv iota. unfold bind.
  replace (PutUint32 X ++ PutUint32 Y ++ PutUint32 Z ++ rest)
    with ((PutUint32 X ++ PutUint32 Y ++ PutUint32 Z) ++ rest)
    by now rewrite <- !app_assoc.
  rewrite (ReadAtLeast_exact 12 _ rest) by reflexivity.
  rewrite Vector3_UnmarshalVariant_PutUint32.
  unfold ret. cbn [fst snd].
  now rewrite !Z.mod_small by now apply in_uint32_spec.
Qed.

Lemma decodeObj_IntegerArray fuel r :
  decodeObj (S fuel) (PutUint32 IntegerArrayType ++ r)
  = bind decodeIntegerArray (fun a => ret (OInt32s a)) r.
Proof.
  cbn [decodeObj]. unfold bind at 1. now rewrite readHeader_PutUint32.
Qed.

Lemma decodeObj_FloatArray fuel r :
  decodeObj (S fuel) (PutUint32 FloatArrayType ++ r)
  = bind decodeFloatArray (fun a => ret (OFloat32s a)) r.
Proof.
  cbn [decodeObj]. unfold bind at 1. now rewrite readHeader_PutUint32.
Qed.

Lemma times_concat {A B} (dec : Dec B) (out : A -> list byte) (g : A -> B)
    (a : list A) (rest : list byte) :
  (forall x r, In x a -> dec (out x ++ r) = (Ok (g x), r)) ->
  times (length a) dec (concat (List.map out a) ++ rest)
  = (Ok (List.map g a), rest).
Proof.
  induction a as [|x a IH]; intros Hd; [reflexivity|].
  cbn [length times List.map concat]. unfold bind at 1.
  rewrite <- app_assoc, Hd by (left; reflexivity).
  unfold bind at 1. rewrite IH by (intros; apply Hd; right; assumption).
  reflexivity.
Qed.

Lemma decodeDict_loop_concat {A} (dec : Dec obj)
    (outk outv : A -> list byte) (gk : A -> string) (gv : A -> obj)
    (a : list A) (rest : list byte) :
  (forall x r, In x a -> dec (outk x ++ r) = (Ok (OString (gk x)), r)) ->
  (forall x r, In x a -> dec (outv x ++ r) = (Ok (gv x), r)) ->
  forall d,
  decodeDict_loop dec (length a) d
    (concat (List.map (fun x => outk x ++ outv x) a) ++ rest)
  = (Ok (foldl (fun d kv => <[fst kv := snd kv]> d) d
           (List.map (fun x => (gk x, gv x)) a)), rest).
Proof.
  induction a as [|x a IH]; intros Hk Hv d; [reflexivity|].
  cbn [length decodeDict_loop List.map concat foldl]. unfold bind at 1.
  rewrite <- !app_assoc, Hk by (left; reflexivity).
  unfold bind at 1. cbn [makeString]. unfold bind at 1.
  rewrite Hv by (left; reflexivity).
  rewrite IH; [reflexivity | |]; intros; [apply Hk | apply Hv]; right; assumption.
Qed.

Lemma count_of_header n :
  0 <= n < 2^31 ->
  Z.land (Z.lor (Z.lor 0 0x80000000) (Z.land 0x7FFFFFFF (to_uint32 n)))
    0x7FFFFFFF = n.
Proof.
  intros Hn. unfold to_uint32.
  rewrite Z.mod_small
    by (change (2^32) with 4294967296; change (2^31) with 2147483648 in Hn;
        lia).
  rewrite <- (Z.mod_small n (2^31)) at 2 by exact Hn.
  rewrite <- Z.land_ones by lia.
  change 0x7FFFFFFF with (Z.ones 31). change 0x80000000 with (2^31).
  apply Z.bits_inj'. intros m Hm.
  rewrite !Z.land_spec, !Z.lor_spec, Z.land_spec, Z.pow2_bits_eqb,
    testbit_ones, Z.bits_0 by lia.
  destruct (Z.eqb_spec 31 m) as [<-|_]; cbn [orb].
  - cbn. now rewrite !andb_false_r.
  - now destruct (Z.testbit n m), ((0 <=? m) && (m <? 31)).
Qed.

Lemma in_list_max {A} (f : A -> nat) (x : A) (l : list A) :
  In x l -> (f x <= list_max (List.map f l))%nat.
Proof.
  intros Hin.
  pose proof (proj1 (list_max_le (List.map f l) _) (Nat.le_refl _)) as Hall.
  rewrite List.Forall_forall in Hall. apply Hall. now apply List.in_map.
Qed.

Lemma depth_pos v : (1 <= depth v)%nat.
Proof. destruct v; cbn; lia. Qed.

Section RoundTrip.
Variable cvt : float64 -> float32.

Lemma encodes_as_wire v bs : encodes_as cvt v bs -> wire cvt v = bs.
Proof. intros He. unfold wire. now rewrite (He []). Qed.

Lemma transports_intro fuel v bs :
  encodes_as cvt v bs ->
  (forall rest, decodeObj fuel (bs ++ rest) = (Ok (dynamic_tree v), rest)) ->
  transports cvt fuel v.
Proof.
  intros He Hd. unfold transports. rewrite (encodes_as_wire v bs He).
  now split.
Qed.

Lemma decodeObj_text fuel s rest :
  short_text s = true ->
  decodeObj (S fuel) (text_wire s ++ rest) = (Ok (OString s), rest).
Proof.
  intros Hs. unfold short_text in Hs. apply Z.ltb_lt in Hs.
  unfold text_wire. rewrite <- !app_assoc, decodeObj_String. unfold bind.
  unfold to_uint32. rewrite Z.mod_small by pow_lia.
  rewrite decodeStr_padded; [reflexivity | exact Hs |].
  rewrite repeat_length, Z2Nat.id; [reflexivity|].
  destruct (padding_of_cases (Z.of_nat (String.length s)) ltac:(lia))
    as [[_ ->] | [[_ ->] | [[_ ->] | [_ ->]]]]; lia.
Qed.

Lemma encodeSlice_of_classify (enc : value -> Enc (list byte)) et a :
  encodeSlice_of cvt enc et a
  = match classify (Type_Kind et) with
    | UintElems => encodeUIntegerArray a
    | IntElems => encodeIntegerArray a
    | Float32Elems | Float64Elems => encodeFloatArray cvt a
    | OtherElems => encodeGenericArray_of enc a
    end.
Proof. unfold encodeSlice_of. now destruct (Type_Kind et). Qed.

Lemma lossless_slice_classify et a :
  lossless (VSlice et a)
  = match classify (Type_Kind et) with
    | UintElems =>
        (Z.of_nat (length a) <? 2^32)
        && forallb (fun x => lossless_int (Value_Uint x)) a
    | IntElems =>
        (Z.of_nat (length a) <? 2^32)
        && forallb (fun x => lossless_int (Value_Int x)) a
    | Float32Elems =>
        (Z.of_nat (length a) <? 2^32) && forallb lossless_float32 a
    | Float64Elems => false
    | OtherElems => (Z.of_nat (length a) <? 2^31) && forallb lossless a
    end.
Proof. cbn [lossless]. now destruct (Type_Kind et). Qed.

Lemma dynamic_tree_slice_classify et a :
  dynamic_tree (VSlice et a)
  = match classify (Type_Kind et) with
    | UintElems | IntElems => OInt32s (List.map int_of a)
    | Float32Elems | Float64Elems => OFloat32s (List.map float_of a)
    | OtherElems => OArray (List.map dynamic_tree a)
    end.
Proof. cbn [dynamic_tree]. now destruct (Type_Kind et). Qed.

Lemma lossless_Uint x :
  lossless_int (Value_Uint x) = true ->
  Value_Uint x = Some (int_of x) /\ in_int32 (int_of x) = true.
Proof.
  destruct x; cbn; try discriminate.
  destruct (is_unsigned k); cbn; [auto | discriminate].
Qed.

Lemma lossless_Int x :
  lossless_int (Value_Int x) = true ->
  Value_Int x = Some (int_of x) /\ in_int32 (int_of x) = true.
Proof.
  destruct x; cbn; try discriminate; [|auto].
  destruct (is_signed k); cbn; [auto | discriminate].
Qed.

Lemma lossless_Float32 x :
  lossless_float32 x = true ->
  Value_Float32 cvt x = Some (float_of x) /\ in_uint32 (float_of x) = true.
Proof. destruct x; cbn; try discriminate; auto. Qed.

Lemma decode_elems {B} (dec : Dec B) (out : value -> list byte)
    (g : value -> B) (a : list value) (rest : list byte) :
  Z.of_nat (length a) < 2^32 ->
  (forall x r, In x a -> dec (out x ++ r) = (Ok (g x), r)) ->
  bind readHeader (fun header => times (Z.to_nat header) dec)
    (PutUint32 (to_uint32 (Z.of_nat (length a)))
       ++ concat (List.map out a) ++ rest)
  = (Ok (List.map g a), rest).
Proof.
  intros Hlen Hd. unfold bind. rewrite readHeader_PutUint32.
  unfold to_uint32. rewrite Z.mod_mod by lia.
  rewrite Z.mod_small by pow_lia. rewrite Nat2Z.id.
  now apply times_concat.
Qed.

Lemma writeDictHeader_buffer n (w : list byte) :
  writeDictHeader n w
  = (w ++ PutUint32 DictionaryType
       ++ PutUint32 (Z.lor (Z.lor 0 0x80000000)
                       (Z.land 0x7FFFFFFF (to_uint32 n))),
     None).
Proof.
  unfold writeDictHeader, andThen, writeHeader.
  rewrite !WriteHeader_buffer. now rewrite <- app_assoc.
Qed.

Lemma decode_pairs {A} fuel (outk outv : A -> list byte) (gk : A -> string)
    (gv : A -> obj) (a : list A) (rest : list byte) :
  Z.of_nat (length a) < 2^31 ->
  (forall x r, In x a ->
     decodeObj fuel (outk x ++ r) = (Ok (OString (gk x)), r)) ->
  (forall x r, In x a -> decodeObj fuel (outv x ++ r) = (Ok (gv x), r)) ->
  decodeObj (S fuel)
    ((PutUint32 DictionaryType
        ++ PutUint32 (Z.lor (Z.lor 0 0x80000000)
                        (Z.land 0x7FFFFFFF (to_uint32 (Z.of_nat (length a)))))
        ++ concat (List.map (fun x => outk x ++ outv x) a)) ++ rest)
  = (Ok (ODict (dict_of (List.map (fun x => (gk x, gv x)) a))), rest).
Proof.
  intros Hlen Hk Hv. rewrite <- !app_assoc, decodeObj_Dictionary.
  unfold bind. rewrite decodeDict_header, count_of_header by lia.
  rewrite Nat2Z.id, (decodeDict_loop_concat _ outk outv gk gv) by assumption.
  reflexivity.
Qed.

Lemma decode_array fuel (a : list value) (rest : list byte) :
  Z.of_nat (length a) < 2^31 ->
  (forall x r, In x a ->
     decodeObj fuel (wire cvt x ++ r) = (Ok (dynamic_tree x), r)) ->
  decodeObj (S fuel)
    ((PutUint32 ArrayType
        ++ PutUint32 (Z.lor (Z.lor 0 0x80000000)
                        (Z.land (to_uint32 (Z.of_nat (length a))) 0x7FFFFFFF))
        ++ concat (List.map (wire cvt) a)) ++ rest)
  = (Ok (OArray (List.map dynamic_tree a)), rest).
Proof.
  intros Hlen Hd. rewrite <- !app_assoc, decodeObj_Array.
  unfold bind. rewrite decodeGenericArray_header.
  rewrite (Z.land_comm (to_uint32 _)), count_of_header by lia.
  rewrite Nat2Z.id, (times_concat _ (wire cvt) dynamic_tree) by assumption.
  reflexivity.
Qed.

Lemma forallb_In {A} (f : A -> bool) (l : list A) x :
  forallb f l = true -> In x l -> f x = true.
Proof. intros Hall. now apply List.forallb_forall. Qed.

Lemma lossless_transports :
  forall fuel v, lossless v = true -> (depth v <= fuel)%nat ->
                 transports cvt fuel v.
Proof.
  induction fuel as [|fuel IH]; intros v Hl Hd.
  { pose proof (depth_pos v). lia. }
  destruct v.
  - (* VInt *)
    cbn [lossless] in Hl. apply andb_true_iff in Hl as [Hk Hn].
    apply (transports_intro _ _
             (PutUint32 IntegerType ++ PutUint32 (to_uint32 n))).
    + intros w. now apply encodeObj_fixed_width_int.
    + intros rest. rewrite <- app_assoc. now apply decodeObj_Integer.
  - (* VFloat32 *)
    cbn [lossless] in Hl.
    apply (transports_intro _ _ (PutUint32 FloatType ++ PutUint32 f)).
    + intros w. cbn [encodeObj MarshalVariant].
      rewrite Float_MarshalVariant_bytes, encodeMarshaler_buffer.
      change (repeat x00 _) with (@nil byte). now rewrite app_nil_r.
    + intros rest. rewrite <- app_assoc. now apply decodeObj_Float.
  - discriminate Hl.
  - (* VString *)
    cbn [lossless] in Hl.
    apply (transports_intro _ _ (text_wire s)).
    + intros w. cbn [encodeObj MarshalVariant]. apply encodeStr_buffer.
    + intros rest. now apply decodeObj_text.
  - discriminate Hl.
  - (* VInteger *)
    cbn [lossless] in Hl.
    apply (transports_intro _ _
             (PutUint32 IntegerType ++ PutUint32 (to_uint32 i))).
    + intros w. cbn [encodeObj MarshalVariant].
      rewrite Integer_MarshalVariant_bytes, encodeMarshaler_buffer.
      change (repeat x00 _) with (@nil byte). now rewrite app_nil_r.
    + intros rest. rewrite <- app_assoc. now apply decodeObj_Integer.
  - (* VFloat *)
    cbn [lossless] in Hl.
    apply (transports_intro _ _ (PutUint32 FloatType ++ PutUint32 f)).
    + intros w. cbn [encodeObj MarshalVariant].
      rewrite Float_MarshalVariant_bytes, encodeMarshaler_buffer.
      change (repeat x00 _) with (@nil byte). now rewrite app_nil_r.
    + intros rest. rewrite <- app_assoc. now apply decodeObj_Float.
  - (* VVector3 *)
    cbn [lossless] in Hl. apply andb_true_iff in Hl as [Hl HZ].
    apply andb_true_iff in Hl as [HX HY].
    apply (transports_intro _ _
             (PutUint32 Vector3Type ++ PutUint32 X ++ PutUint32 Y
                ++ PutUint32 Z)).
    + intros w. cbn [encodeObj MarshalVariant].
      rewrite Vector3_MarshalVariant_bytes, encodeMarshaler_buffer.
      change (repeat x00 _) with (@nil byte). now rewrite app_nil_r.
    + intros rest. rewrite <- !app_assoc. now apply decodeObj_Vector3.
  - discriminate Hl.
  - discriminate Hl.
  - (* VSlice *)
    rewrite lossless_slice_classify in Hl.
    unfold transports. rewrite dynamic_tree_slice_classify.
    assert (Henc : forall bs,
      (forall w : list byte,
         match classify (Type_Kind elem) with
         | UintElems => encodeUIntegerArray a
         | IntElems => encodeIntegerArray a
         | Float32Elems | Float64Elems => encodeFloatArray cvt a
         | OtherElems => encodeGenericArray_of (encodeObj cvt) a
         end w = (w ++ bs, None)) ->
      encodes_as cvt (VSlice elem a) bs).
    { intros bs Hbs w. cbn [encodeObj MarshalVariant].
      rewrite encodeSlice_of_classify. apply Hbs. }
    enough (Hex : exists bs, encodes_as cvt (VSlice elem a) bs /\
           forall rest, decodeObj (S fuel) (bs ++ rest)
             = (Ok match classify (Type_Kind elem) with
                   | UintElems | IntElems => OInt32s (List.map int_of a)
                   | Float32Elems | Float64Elems =>
                       OFloat32s (List.map float_of a)
                   | OtherElems => OArray (List.map dynamic_tree a)
                   end, rest)).
    { destruct Hex as [bs [He Hdec]]. rewrite (encodes_as_wire _ _ He).
      now split. }
    destruct (classify (Type_Kind elem)); try discriminate Hl;
      apply andb_true_iff in Hl as [Hlen Hall]; apply Z.ltb_lt in Hlen.
    + (* unsigned elements *)
      exists (PutUint32 IntegerArrayType
                ++ PutUint32 (to_uint32 (Z.of_nat (length a)))
                ++ concat (List.map (fun x =>
                     PutUint32 (to_uint32 (to_int32 (int_of x)))) a)).
      split.
      * apply Henc. intros w.
        unfold encodeUIntegerArray, andThen, writeHeader.
        rewrite !WriteHeader_buffer.
        rewrite (forEach_buffer _ (fun x =>
                   PutUint32 (to_uint32 (to_int32 (int_of x))))).
        -- now rewrite <- !app_assoc.
        -- intros x w0 Hx.
           destruct (lossless_Uint x (forallb_In _ _ _ Hall Hx)) as [-> _].
           apply WriteInt32_buffer.
      * intros rest. rewrite <- !app_assoc, decodeObj_IntegerArray.
        unfold bind at 1. unfold decodeIntegerArray.
        rewrite (decode_elems ReadInt32 _ int_of a rest Hlen);
          [reflexivity|].
        intros x r Hx.
        destruct (lossless_Uint x (forallb_In _ _ _ Hall Hx)) as [_ Hin].
        now apply ReadInt32_PutUint32.
    + (* signed elements *)
      exists (PutUint32 IntegerArrayType
                ++ PutUint32 (to_uint32 (Z.of_nat (length a)))
                ++ concat (List.map (fun x =>
                     PutUint32 (to_uint32 (to_int32 (int_of x)))) a)).
      split.
      * apply Henc. intros w.
        unfold encodeIntegerArray, andThen, writeHeader.
        rewrite !WriteHeader_buffer.
        rewrite (forEach_buffer _ (fun x =>
                   PutUint32 (to_uint32 (to_int32 (int_of x))))).
        -- now rewrite <- !app_assoc.
        -- intros x w0 Hx.
           destruct (lossless_Int x (forallb_In _ _ _ Hall Hx)) as [-> _].
           apply WriteInt32_buffer.
      * intros rest. rewrite <- !app_assoc, decodeObj_IntegerArray.
        unfold bind at 1. unfold decodeIntegerArray.
        rewrite (decode_elems ReadInt32 _ int_of a rest Hlen);
          [reflexivity|].
        intros x r Hx.
        destruct (lossless_Int x (forallb_In _ _ _ Hall Hx)) as [_ Hin].
        now apply ReadInt32_PutUint32.
    + (* float32 elements *)
      exists (PutUint32 FloatArrayType
                ++ PutUint32 (to_uint32 (Z.of_nat (length a)))
                ++ concat (List.map (fun x => PutUint32 (float_of x)) a)).
      split.
      * apply Henc. intros w.
        unfold encodeFloatArray, andThen, writeHeader.
        rewrite !WriteHeader_buffer.
        rewrite (forEach_buffer _ (fun x => PutUint32 (float_of x))).
        -- now rewrite <- !app_assoc.
        -- intros x w0 Hx.
           destruct (lossless_Float32 x (forallb_In _ _ _ Hall Hx)) as [-> _].
           reflexivity.
      * intros rest. rewrite <- !app_assoc, decodeObj_FloatArray.
        unfold bind at 1. unfold decodeFloatArray.
        rewrite (decode_elems ReadFloat32 _ float_of a rest Hlen);
          [reflexivity|].
        intros x r Hx.
        destruct (lossless_Float32 x (forallb_In _ _ _ Hall Hx)) as [_ Hin].
        now apply ReadFloat32_PutUint32.
    + (* other elements: the heterogeneous sequence *)
      assert (Hx : forall x, In x a -> transports cvt fuel x).
      { intros x Hx. apply IH; [exact (forallb_In _ _ _ Hall Hx)|].
        cbn [depth] in Hd. pose proof (in_list_max depth x a Hx). lia. }
      exists (PutUint32 ArrayType
                ++ PutUint32 (Z.lor (Z.lor 0 0x80000000)
                     (Z.land (to_uint32 (Z.of_nat (length a))) 0x7FFFFFFF))
                ++ concat (List.map (wire cvt) a)).
      split.
      * apply Henc. intros w.
        unfold encodeGenericArray_of, andThen, writeHeader.
        rewrite !WriteHeader_buffer.
        rewrite (forEach_buffer _ (wire cvt)).
        -- now rewrite <- !app_assoc.
        -- intros x w0 Hin. apply (proj1 (Hx x Hin)).
      * intros rest. apply decode_array; [exact Hlen|].
        intros x r Hin. apply (proj2 (Hx x Hin)).
  - (* VStruct *)
    cbn [lossless] in Hl. apply andb_true_iff in Hl as [Hlen Hall].
    apply Z.ltb_lt in Hlen.
    assert (Hx : forall x, In x fields ->
              short_text (fst x) = true /\ transports cvt fuel (snd x) /\
              exists fuel', fuel = S fuel').
    { intros x Hx. pose proof (forallb_In _ _ _ Hall Hx) as Hf.
      cbn beta in Hf. apply andb_true_iff in Hf as [Hs Hv].
      cbn [depth] in Hd.
      pose proof (in_list_max (fun f => depth (snd f)) x fields Hx) as Hm.
      cbn beta in Hm. pose proof (depth_pos (snd x)).
      split; [exact Hs|]. split; [apply IH; [exact Hv | lia]|].
      destruct fuel; [lia | eauto]. }
    apply (transports_intro _ _
      (PutUint32 DictionaryType
         ++ PutUint32 (Z.lor (Z.lor 0 0x80000000)
              (Z.land 0x7FFFFFFF (to_uint32 (Z.of_nat (length fields)))))
         ++ concat (List.map (fun x => text_wire (fst x) ++ wire cvt (snd x))
                      fields))).
    + intros w. cbn [encodeObj MarshalVariant]. unfold encodeStruct_of.
      rewrite writeDictHeader_buffer.
      rewrite (forEach_buffer _
                 (fun x => text_wire (fst x) ++ wire cvt (snd x))).
      * now rewrite <- !app_assoc.
      * intros x w0 Hin. destruct (Hx x Hin) as [_ [[He _] _]].
        unfold andThen. rewrite encodeStr_buffer, He.
        unfold text_wire. now rewrite <- !app_assoc.
    + intros rest. cbn [dynamic_tree].
      apply (decode_pairs fuel (fun x => text_wire (fst x))
               (fun x => wire cvt (snd x)) fst
               (fun x => dynamic_tree (snd x))); [exact Hlen | |].
      * intros x r Hin. destruct (Hx x Hin) as [Hs [_ [fuel' ->]]].
        now apply decodeObj_text.
      * intros x r Hin. destruct (Hx x Hin) as [_ [[_ Hdec] _]]. apply Hdec.
  - (* VMap *)
    cbn [lossless] in Hl. apply andb_true_iff in Hl as [Hlen Hall].
    apply Z.ltb_lt in Hlen.
    assert (Hx : forall x, In x entries ->
              fst x = VString (key_of (fst x)) /\
              short_text (key_of (fst x)) = true /\
              transports cvt fuel (snd x) /\
              exists fuel', fuel = S fuel').
    { intros x Hx. pose proof (forallb_In _ _ _ Hall Hx) as Hf.
      cbn beta in Hf.
      destruct (fst x) as [| | |k| | | | | | | | |] eqn:Ek; try discriminate Hf.
      apply andb_true_iff in Hf as [Hs Hv].
      cbn [depth] in Hd.
      pose proof (in_list_max (fun e => depth (snd e)) x entries Hx) as Hm.
      cbn beta in Hm. pose proof (depth_pos (snd x)).
      split; [reflexivity|]. split; [exact Hs|].
      split; [apply IH; [exact Hv | lia]|].
      destruct fuel; [lia | eauto]. }
    apply (transports_intro _ _
      (PutUint32 DictionaryType
         ++ PutUint32 (Z.lor (Z.lor 0 0x80000000)
              (Z.land 0x7FFFFFFF (to_uint32 (Z.of_nat (length entries)))))
         ++ concat (List.map (fun x => text_wire (key_of (fst x))
                                         ++ wire cvt (snd x)) entries))).
    + intros w. cbn [encodeObj MarshalVariant]. unfold encodeMap_of.
      rewrite writeDictHeader_buffer.
      rewrite (forEach_buffer _
                 (fun x => text_wire (key_of (fst x)) ++ wire cvt (snd x))).
      * now rewrite <- !app_assoc.
      * intros x w0 Hin. destruct (Hx x Hin) as [Ek [_ [[He _] _]]].
        unfold andThen. rewrite Ek at 1. cbn [encodeObj MarshalVariant].
        rewrite encodeStr_buffer, He.
        unfold text_wire. now rewrite <- !app_assoc.
    + intros rest. cbn [dynamic_tree].
      apply (decode_pairs fuel (fun x => text_wire (key_of (fst x)))
               (fun x => wire cvt (snd x)) (fun x => key_of (fst x))
               (fun x => dynamic_tree (snd x))); [exact Hlen | |].
      * intros x r Hin. destruct (Hx x Hin) as [_ [Hs [_ [fuel' ->]]]].
        now apply decodeObj_text.
      * intros x r Hin. destruct (Hx x Hin) as [_ [_ [[_ Hdec] _]]].
        apply Hdec.
Qed.
End RoundTrip.




(** * Further properties of the codec *)

(** ** The byte helpers and the primitive reads and writes *)

Lemma to_int32_range n : in_int32 (to_int32 n) = true.
Proof.
  unfold in_int32, to_int32.
  pose proof (Z.mod_pos_bound n (2^32) ltac:(lia)) as Hb.
  change (2^32) with 4294967296 in *. change (2^31) with 2147483648.
  apply andb_true_iff. split; [apply Z.leb_le | apply Z.ltb_lt];
    destruct (Z.ltb_spec (n mod 4294967296) 2147483648); lia.
Qed.

Lemma in_uint32_mod n : in_uint32 (n mod 2^32) = true.
Proof.
  unfold in_uint32.
  pose proof (Z.mod_pos_bound n (2^32) ltac:(lia)) as Hb.
  apply andb_true_iff. split; [apply Z.leb_le | apply Z.ltb_lt]; lia.
Qed.

(** X1: Float32ToBytes and Float32FromBytes are inverse to each other on
    32-bit patterns and 4-byte slices, and Int32FromBytes reads the
    little-endian word of an int32 back as that int32. *)
Theorem X1_byte_helpers_inverse (f i : Z) (b0 b1 b2 b3 : byte) :
  in_uint32 f = true -> in_int32 i = true ->
  Float32FromBytes (Float32ToBytes f) = f /\
  Float32ToBytes (Float32FromBytes [b0; b1; b2; b3]) = [b0; b1; b2; b3] /\
  Int32FromBytes (PutUint32 (to_uint32 i)) = i /\
  PutUint32 (ReadHeaderFromBytes [b0; b1; b2; b3]) = [b0; b1; b2; b3].
Proof.
  intros Hf Hi.
  unfold Float32FromBytes, Float32ToBytes, Float32frombits, Float32bits,
    Int32FromBytes, ReadHeaderFromBytes.
  split; [now apply Uint32_PutUint32_small, in_uint32_spec|].
  split; [apply PutUint32_Uint32|].
  split; [|apply PutUint32_Uint32].
  rewrite Uint32_PutUint32.
  change (to_uint32 i mod 2^32) with (to_uint32 (to_uint32 i)).
  now rewrite !to_int32_to_uint32, to_int32_small.
Qed.

Lemma X1_byte_helpers_inverse_witness :
  (in_uint32 0x40866666 = true /\ in_int32 (-3) = true) /\
  Float32FromBytes (Float32ToBytes 0x40866666) = 0x40866666 /\
  Int32FromBytes (PutUint32 (to_uint32 (-3))) = -3.
Proof.
  split; [split; reflexivity|].
  pose proof (X1_byte_helpers_inverse 0x40866666 (-3) x00 x00 x00 x00
                eq_refl eq_refl) as [H1 [_ [H3 _]]].
  split; [exact H1 | exact H3].
Defined.

(** X2: what WriteInt32, WriteFloat32 and WriteHeader append to a buffer
    is four bytes that ReadInt32, ReadFloat32 and readHeader read back,
    leaving the rest of the stream: the int32 that the integer wraps to,
    and the 32-bit word of the float or header. *)
Theorem X2_primitive_write_then_read (x : Z) (w rest : list byte) :
  WriteInt32 x w = (w ++ PutUint32 (to_uint32 x), None) /\
  ReadInt32 (PutUint32 (to_uint32 x) ++ rest) = (Ok (to_int32 x), rest) /\
  WriteFloat32 x w = (w ++ PutUint32 x, None) /\
  ReadFloat32 (PutUint32 x ++ rest) = (Ok (x mod 2^32), rest) /\
  WriteHeader x w = (w ++ PutUint32 x, None) /\
  readHeader (PutUint32 x ++ rest) = (Ok (x mod 2^32), rest).
Proof.
  split; [reflexivity|]. split.
  { unfold ReadInt32, binary_Read_uint32, bind.
    rewrite (ReadAtLeast_exact 4 _ rest) by reflexivity.
    unfold ret. rewrite Uint32_PutUint32.
    change (to_uint32 x mod 2^32) with (to_uint32 (to_uint32 x)).
    now rewrite !to_int32_to_uint32. }
  split; [reflexivity|]. split.
  { unfold ReadFloat32, binary_Read_uint32, bind.
    rewrite (ReadAtLeast_exact 4 _ rest) by reflexivity.
    unfold ret, Float32frombits. now rewrite Uint32_PutUint32. }
  split; [reflexivity | apply readHeader_PutUint32].
Qed.

(** ** The hooks of types.go *)

(** X3: MarshalVariant of Integer, Float and Vector3 returns the 4-byte tag
    followed by the payload, with no error; UnmarshalVariant applied to the
    payload, that is to the bytes after the tag, gives the value back, also
    when further bytes follow it. *)
Theorem X3_hook_payload_round_trip
    (i f X Y Z : Z) (more : list byte) :
  in_int32 i = true -> in_uint32 f = true ->
  in_uint32 X = true -> in_uint32 Y = true -> in_uint32 Z = true ->
  (snd (Integer_MarshalVariant i) = None /\
   firstn 4 (fst (Integer_MarshalVariant i)) = PutUint32 IntegerType /\
   Integer_UnmarshalVariant (skipn 4 (fst (Integer_MarshalVariant i)) ++ more)
   = Ok i) /\
  (snd (Float_MarshalVariant f) = None /\
   firstn 4 (fst (Float_MarshalVariant f)) = PutUint32 FloatType /\
   Float_UnmarshalVariant (skipn 4 (fst (Float_MarshalVariant f)) ++ more)
   = Ok f) /\
  (snd (Vector3_MarshalVariant X Y Z) = None /\
   firstn 4 (fst (Vector3_MarshalVariant X Y Z)) = PutUint32 Vector3Type /\
   Vector3_UnmarshalVariant
     (skipn 4 (fst (Vector3_MarshalVariant X Y Z)) ++ more)
   = Ok (X, Y, Z)).
Proof.
  intros Hi Hf HX HY HZ.
  rewrite Integer_MarshalVariant_bytes, Float_MarshalVariant_bytes,
    Vector3_MarshalVariant_bytes. cbn [fst snd].
  split; [|split]; (split; [reflexivity|]); (split; [reflexivity|]).
  - change (skipn 4 (PutUint32 IntegerType ++ PutUint32 (to_uint32 i)))
      with (PutUint32 (to_uint32 i)).
    unfold Integer_UnmarshalVariant.
    change (firstn 4 (PutUint32 (to_uint32 i) ++ more))
      with (PutUint32 (to_uint32 i)).
    change (length (PutUint32 (to_uint32 i) ++ more) <? 4)%nat with false.
    cbv iota. unfold Int32FromBytes. rewrite Uint32_PutUint32.
    change (to_uint32 i mod 2^32) with (to_uint32 (to_uint32 i)).
    now rewrite !to_int32_to_uint32, to_int32_small.
  - change (skipn 4 (PutUint32 FloatType ++ PutUint32 f))
      with (PutUint32 f).
    unfold Float_UnmarshalVariant.
    change (firstn 4 (PutUint32 f ++ more)) with (PutUint32 f).
    change (length (PutUint32 f ++ more) <? 4)%nat with false.
    cbv iota. unfold Float32FromBytes, Float32frombits.
    now rewrite Uint32_PutUint32_small by now apply in_uint32_spec.
  - change (skipn 4 (PutUint32 Vector3Type ++ PutUint32 X ++ PutUint32 Y
                       ++ PutUint32 Z))
      with (PutUint32 X ++ PutUint32 Y ++ PutUint32 Z).
    unfold Vector3_UnmarshalVariant.
    change (length ((PutUint32 X ++ PutUint32 Y ++ PutUint32 Z) ++ more)
              <? 12)%nat with false.
    cbv iota. unfold Float32FromBytes, Float32frombits.
    change (firstn 4 ((PutUint32 X ++ PutUint32 Y ++ PutUint32 Z) ++ more))
      with (PutUint32 X).
    change (firstn 4 (skipn 4
              ((PutUint32 X ++ PutUint32 Y ++ PutUint32 Z) ++ more)))
      with (PutUint32 Y).
    change (firstn 4 (skipn 8
              ((PutUint32 X ++ PutUint32 Y ++ PutUint32 Z) ++ more)))
      with (PutUint32 Z).
    now rewrite !Uint32_PutUint32_small by now apply in_uint32_spec.
Qed.

Lemma X3_hook_payload_round_trip_witness :
  Integer_UnmarshalVariant
    (skipn 4 (fst (Integer_MarshalVariant (-3))) ++ [x2a]) = Ok (-3) /\
  Vector3_UnmarshalVariant
    (skipn 4 (fst (Vector3_MarshalVariant 0x42280000 0x40866666 0x3ED70A3D))
       ++ [x2a])
  = Ok (0x42280000, 0x40866666, 0x3ED70A3D).
Proof.
  pose proof (X3_hook_payload_round_trip (-3) 0 0x42280000 0x40866666
                0x3ED70A3D [x2a] eq_refl eq_refl eq_refl eq_refl eq_refl)
    as [[_ [_ H1]] [_ [_ [_ H3]]]].
  split; [exact H1 | exact H3].
Defined.

(** ** Streams that end too early *)

Lemma ReadAtLeast_too_short (n : nat) (r : list byte) :
  (length r < n)%nat -> ReadAtLeast n r = (Err (eof_error r), []).
Proof.
  intros Hlt. destruct n as [|n]; [lia|]. destruct r as [|b r]; [reflexivity|].
  unfold ReadAtLeast.
  destruct (Nat.ltb_spec (length (b :: r)) (S n)); [reflexivity | lia].
Qed.

Lemma ReadAtLeast_enough (n : nat) (r : list byte) :
  (n <= length r)%nat -> ReadAtLeast n r = (Ok (firstn n r), skipn n r).
Proof.
  intros Hle. destruct n as [|n]; [reflexivity|].
  destruct r as [|b r]; [cbn in Hle; lia|].
  unfold ReadAtLeast.
  destruct (Nat.ltb_spec (length (b :: r)) (S n)); [lia | reflexivity].
Qed.

(** X5: on a stream with fewer than four bytes decodeObj and Decode read no
    tag: they fail with io.EOF when the stream is empty and with
    io.ErrUnexpectedEOF when it has one to three bytes, and the stream is
    used up. *)
Theorem X5_no_tag_to_read
    (fuel : nat) (r : list byte)
    (mapstructure_Decode : obj -> gotype -> result value) (i : gotype) :
  (length r < 4)%nat ->
  decodeObj (S fuel) r = (Err (eof_error r), []) /\
  Decode mapstructure_Decode i r = (Err (eof_error r), []).
Proof.
  intros Hr.
  assert (E : forall f, decodeObj (S f) r = (Err (eof_error r), [])).
  { intros f. cbn [decodeObj]. unfold bind at 1.
    unfold readHeader, binary_Read_uint32, bind.
    now rewrite ReadAtLeast_too_short. }
  split; [apply E|]. unfold Decode. now rewrite E.
Qed.

Lemma X5_no_tag_to_read_witness :
  (length ([] : list byte) < 4)%nat /\
  Decode (fun _ _ => OutOfFuel) TInterface [] = (Err EOF, []).
Proof.
  assert (H : (length ([] : list byte) < 4)%nat) by (cbn; lia).
  split; [exact H|].
  exact (proj2 (X5_no_tag_to_read 0 [] (fun _ _ => OutOfFuel) TInterface H)).
Defined.

(** X6: when fewer bytes follow the length header of a text than it
    announces, decodeStr fails and uses the stream up: with io.EOF when
    nothing follows the header, with io.ErrUnexpectedEOF otherwise; and
    decodeObj on the tagged stream fails the same way. *)
Theorem X6_truncated_text
    (fuel : nat) (size : Z) (body : list byte) :
  0 <= size < 2^32 -> (length body < Z.to_nat size)%nat ->
  decodeStr (PutUint32 size ++ body) = (Err (eof_error body), []) /\
  decodeObj (S fuel) (PutUint32 StringType ++ PutUint32 size ++ body)
  = (Err (eof_error body), []).
Proof.
  intros Hs Hb.
  assert (E : decodeStr (PutUint32 size ++ body) = (Err (eof_error body), [])).
  { unfold decodeStr, bind.
    rewrite readHeader_PutUint32, Z.mod_small by lia.
    now rewrite ReadAtLeast_too_short. }
  split; [exact E|]. rewrite decodeObj_String. unfold bind. now rewrite E.
Qed.

Lemma X6_truncated_text_witness :
  (0 <= 5 < 2^32 /\ (length [x61; x62] < Z.to_nat 5)%nat) /\
  decodeObj 1 (PutUint32 StringType ++ PutUint32 5 ++ [x61; x62])
  = (Err ErrUnexpectedEOF, []).
Proof.
  assert (H1 : 0 <= 5 < 2^32) by (split; [lia | reflexivity]).
  assert (H2 : (length [x61; x62] < Z.to_nat 5)%nat) by (cbn; lia).
  split; [split; assumption|].
  exact (proj2 (X6_truncated_text 0 5 [x61; x62] H1 H2)).
Defined.

(** X7: discardPadding skips the padding of a text of the given size: no
    byte when the size is a multiple of four, else 4 - size mod 4 bytes,
    whatever they are; when the stream has fewer bytes it returns
    io.EOF (empty stream) or io.ErrUnexpectedEOF and uses the stream up. *)
Theorem X7_discardPadding_skips (size : Z) (r : list byte) :
  0 <= size ->
  let padding := Z.to_nat (padding_of size) in
  ((padding <= length r)%nat ->
   discardPadding size r = (None, skipn padding r)) /\
  ((length r < padding)%nat ->
   discardPadding size r = (Some (eof_error r), [])).
Proof.
  intros Hs padding. subst padding. unfold discardPadding.
  destruct (padding_of_cases size Hs) as [[E Ep] | [[E Ep] | [[E Ep] | [E Ep]]]];
    rewrite E, Ep;
    (split; intros Hr;
     [ first [ reflexivity
             | cbn [Z.sub Z.ltb Z.compare andb Z.opp Z.add Z.pos_sub
                    Pos.compare Pos.compare_cont Z.succ_double
                    Z.pred_double Z.double Pos.pred_double];
               now rewrite ReadAtLeast_enough by exact Hr ]
     | first [ cbn in Hr; lia
             | cbn [Z.sub Z.ltb Z.compare andb Z.opp Z.add Z.pos_sub
                    Pos.compare Pos.compare_cont Z.succ_double
                    Z.pred_double Z.double Pos.pred_double];
               now rewrite ReadAtLeast_too_short by exact Hr ] ]).
Qed.

Lemma X7_discardPadding_skips_witness :
  0 <= 5 /\
  discardPadding 5 [xff; x01; x7f; x2a] = (None, [x2a]) /\
  discardPadding 5 [xff] = (Some ErrUnexpectedEOF, []).
Proof.
  assert (H : 0 <= 5) by lia.
  split; [exact H|]. split.
  - exact (proj1 (X7_discardPadding_skips 5 [xff; x01; x7f; x2a] H)
             ltac:(vm_compute; lia)).
  - exact (proj2 (X7_discardPadding_skips 5 [xff] H) ltac:(vm_compute; lia)).
Defined.

(** ** Homogeneous sequences on decode *)

Lemma times_words {B} (dec : Dec B) (g : Z -> B) (ws : list Z) rest :
  (forall x r, dec (PutUint32 x ++ r) = (Ok (g x), r)) ->
  times (length ws) dec (concat (List.map PutUint32 ws) ++ rest)
  = (Ok (List.map g ws), rest).
Proof.
  intros Hd. apply (times_concat dec PutUint32 g). intros x r _. apply Hd.
Qed.

Lemma ReadInt32_word x r :
  ReadInt32 (PutUint32 x ++ r) = (Ok (to_int32 x), r).
Proof.
  unfold ReadInt32, binary_Read_uint32, bind.
  rewrite (ReadAtLeast_exact 4 _ r) by reflexivity.
  unfold ret. rewrite Uint32_PutUint32.
  change (x mod 2^32) with (to_uint32 x). now rewrite to_int32_to_uint32.
Qed.

Lemma ReadFloat32_word x r :
  ReadFloat32 (PutUint32 x ++ r) = (Ok (x mod 2^32), r).
Proof.
  unfold ReadFloat32, binary_Read_uint32, bind.
  rewrite (ReadAtLeast_exact 4 _ r) by reflexivity.
  unfold ret, Float32frombits. now rewrite Uint32_PutUint32.
Qed.

Lemma times_read_truncated (dec : Dec Z) (n : nat) (r : list byte) :
  (forall r, dec r = bind (ReadAtLeast 4) (fun bs => ret (Uint32 bs)) r
             \/ exists g, dec r
                  = bind (bind (ReadAtLeast 4) (fun bs => ret (Uint32 bs)))
                      (fun u => ret (g u)) r) ->
  (length r < 4 * n)%nat ->
  exists e r', times n dec r = (Err e, r') /\
               (e = EOF \/ e = ErrUnexpectedEOF).
Proof.
  intros Hdec. revert r. induction n as [|n IH]; intros r Hr; [lia|].
  cbn [times]. unfold bind at 1.
  destruct (Nat.lt_ge_cases (length r) 4) as [Hshort|Hlong].
  - assert (E : dec r = (Err (eof_error r), [])).
    { destruct (Hdec r) as [-> | [g ->]]; unfold bind;
        now rewrite ReadAtLeast_too_short. }
    rewrite E. exists (eof_error r), [].
    split; [reflexivity|]. destruct r; cbn; auto.
  - assert (E : exists v, dec r = (Ok v, skipn 4 r)).
    { destruct (Hdec r) as [-> | [g ->]]; unfold bind;
        rewrite ReadAtLeast_enough by exact Hlong; unfold ret; eauto. }
    destruct E as [v ->]. unfold bind at 1.
    destruct (IH (skipn 4 r)) as [e [r' [-> He]]];
      [rewrite length_drop; lia|].
    exists e, r'. now split.
Qed.

(** X8: decodeIntegerArray and decodeFloatArray read the count and then
    exactly that many 4-byte words, each as an int32 (a word above 2^31 - 1
    is negative) or as a float32 pattern, and leave what follows; when the
    stream holds fewer than 4 * count bytes after the count they fail with
    io.EOF or io.ErrUnexpectedEOF. *)
Theorem X8_homogeneous_sequence_decode
    (ws : list Z) (count : Z) (rest short : list byte) :
  Z.of_nat (length ws) < 2^32 ->
  0 <= count < 2^32 -> (length short < 4 * Z.to_nat count)%nat ->
  decodeIntegerArray
    (PutUint32 (Z.of_nat (length ws)) ++ concat (List.map PutUint32 ws) ++ rest)
  = (Ok (List.map to_int32 ws), rest) /\
  decodeFloatArray
    (PutUint32 (Z.of_nat (length ws)) ++ concat (List.map PutUint32 ws) ++ rest)
  = (Ok (List.map (fun x => x mod 2^32) ws), rest) /\
  (exists e r', decodeIntegerArray (PutUint32 count ++ short) = (Err e, r') /\
                (e = EOF \/ e = ErrUnexpectedEOF)) /\
  (exists e r', decodeFloatArray (PutUint32 count ++ short) = (Err e, r') /\
                (e = EOF \/ e = ErrUnexpectedEOF)).
Proof.
  intros Hn Hc Hshort.
  unfold decodeIntegerArray, decodeFloatArray, bind.
  rewrite !readHeader_PutUint32, !Z.mod_small by lia. rewrite Nat2Z.id.
  split; [apply times_words, ReadInt32_word|].
  split; [apply times_words, ReadFloat32_word|].
  split; apply times_read_truncated; try exact Hshort; intros r; right.
  - exists to_int32. reflexivity.
  - exists Float32frombits. reflexivity.
Qed.

Lemma X8_homogeneous_sequence_decode_witness :
  (Z.of_nat (length [5; 4294967295]) < 2^32 /\ 0 <= 2 < 2^32 /\
   (length [x01; x00; x00; x00; x02] < 4 * Z.to_nat 2)%nat) /\
  decodeIntegerArray
    (PutUint32 (Z.of_nat (length [5; 4294967295]))
       ++ concat (List.map PutUint32 [5; 4294967295]) ++ [x2a])
  = (Ok [5; -1], [x2a]).
Proof.
  assert (H1 : Z.of_nat (length [5; 4294967295]) < 2^32) by reflexivity.
  assert (H2 : 0 <= 2 < 2^32) by (split; [lia | reflexivity]).
  assert (H3 : (length [x01; x00; x00; x00; x02] < 4 * Z.to_nat 2)%nat)
    by (cbn; lia).
  split; [split; [exact H1 | split; [exact H2 | exact H3]]|].
  exact (proj1 (X8_homogeneous_sequence_decode [5; 4294967295] 2 [x2a]
                  [x01; x00; x00; x00; x02] H1 H2 H3)).
Defined.

(** ** What the decoder does to the stream *)

Lemma ret_consumes {A} (a : A) : consumes_prefix (ret a).
Proof. intros r. reflexivity. Qed.

Lemma fail_consumes {A} e : consumes_prefix (@fail A e).
Proof. intros r. reflexivity. Qed.

Lemma lift_consumes {A} (x : result A) : consumes_prefix (fun r => (x, r)).
Proof. intros r. reflexivity. Qed.

Lemma bind_consumes {A B} (m : Dec A) (k : A -> Dec B) :
  consumes_prefix m -> (forall a, consumes_prefix (k a)) ->
  consumes_prefix (bind m k).
Proof.
  intros Hm Hk r. unfold bind. specialize (Hm r).
  destruct (m r) as [[a| e |] r']; cbn in *; try exact Hm.
  etransitivity; [apply Hk | exact Hm].
Qed.

Lemma ReadAtLeast_consumes n : consumes_prefix (ReadAtLeast n).
Proof.
  intros r. unfold ReadAtLeast. destruct n; [reflexivity|].
  destruct r as [|b r]; [reflexivity|].
  destruct (length (b :: r) <? S n)%nat; cbn [snd].
  - apply suffix_nil.
  - exists (firstn (S n) (b :: r)). symmetry. apply take_drop.
Qed.

Lemma readHeader_consumes : consumes_prefix readHeader.
Proof.
  apply bind_consumes; [apply ReadAtLeast_consumes | intros; apply ret_consumes].
Qed.

Lemma decodeStr_consumes : consumes_prefix decodeStr.
Proof.
  unfold decodeStr. apply bind_consumes; [apply readHeader_consumes|].
  intros header. apply bind_consumes; [apply ReadAtLeast_consumes|].
  intros str r. unfold discardPadding.
  destruct (_ && _); [|reflexivity].
  pose proof (ReadAtLeast_consumes (Z.to_nat (4 - header mod 4)) r) as Hs.
  destruct (ReadAtLeast _ r) as [[a| e |] r']; exact Hs.
Qed.

Lemma times_consumes {A} (d : Dec A) n :
  consumes_prefix d -> consumes_prefix (times n d).
Proof.
  intros Hd. induction n as [|n IH]; [apply ret_consumes|].
  cbn [times]. apply bind_consumes; [exact Hd|]. intros v.
  apply bind_consumes; [exact IH|]. intros; apply ret_consumes.
Qed.

Lemma decodeDict_loop_consumes (dec : Dec obj) n :
  consumes_prefix dec -> forall d, consumes_prefix (decodeDict_loop dec n d).
Proof.
  intros Hd. induction n as [|n IH]; intros d; [apply ret_consumes|].
  cbn [decodeDict_loop]. apply bind_consumes; [exact Hd|]. intros o.
  apply bind_consumes; [apply lift_consumes|]. intros k.
  apply bind_consumes; [exact Hd|]. intros v. apply IH.
Qed.

Lemma decodeObj_consumes fuel : consumes_prefix (decodeObj fuel).
Proof.
  induction fuel as [|fuel IH]; [intros r; reflexivity|].
  change (decodeObj (S fuel)) with (fun r => decodeObj (S fuel) r).
  cbn [decodeObj]. apply bind_consumes; [apply readHeader_consumes|].
  intros typ.
  repeat match goal with
  | |- context [ typ =? ?c ] => destruct (typ =? c)
  end;
    repeat first
      [ apply fail_consumes | apply ret_consumes | apply lift_consumes
      | apply decodeStr_consumes | apply ReadAtLeast_consumes
      | apply readHeader_consumes
      | apply times_consumes | apply decodeDict_loop_consumes | exact IH
      | apply bind_consumes | intro ].
Qed.

Lemma readHeader_Ok_four r h r' :
  readHeader r = (Ok h, r') -> (length r' + 4 = length r)%nat.
Proof.
  unfold readHeader, binary_Read_uint32, bind, ReadAtLeast.
  destruct r as [|b r]; [discriminate|].
  destruct (Nat.ltb_spec (length (b :: r)) 4); [discriminate|].
  unfold ret. intros [= _ <-]. rewrite length_drop. cbn [length] in *. lia.
Qed.

(** X9: whatever the stream and the outcome, decodeObj leaves a suffix of
    the stream it was given: it reads forward and never puts bytes back or
    invents them; and a successful decodeObj has consumed at least the
    four bytes of a tag. *)
Theorem X9_decoder_reads_forward
    (fuel : nat) (r r' : list byte) (res : result obj) :
  decodeObj fuel r = (res, r') ->
  (exists consumed, r = consumed ++ r') /\
  (forall o, res = Ok o -> (4 + length r' <= length r)%nat).
Proof.
  intros E. split.
  - pose proof (decodeObj_consumes fuel r) as Hs. rewrite E in Hs. exact Hs.
  - intros o ->. destruct fuel as [|fuel]; [discriminate E|].
    cbn [decodeObj] in E. unfold bind at 1 in E.
    destruct (readHeader r) as [[typ| e |] r1] eqn:Eh; try discriminate E.
    apply readHeader_Ok_four in Eh.
    pose proof (decodeObj_shrinks (S fuel) r) as Hall.
    assert (Hk : (length r' <= length r1)%nat).
    { match type of E with ?k r1 = _ =>
        assert (Hs : shrinks k); [|specialize (Hs r1); rewrite E in Hs;
                                    exact Hs]
      end.
      repeat match goal with
      | |- context [ typ =? ?c ] => destruct (typ =? c)
      end;
        repeat first
          [ apply fail_shrinks | apply ret_shrinks | apply lift_shrinks
          | apply decodeStr_shrinks | apply ReadAtLeast_shrinks
          | apply readHeader_shrinks
          | apply times_shrinks | apply decodeDict_loop_shrinks
          | apply decodeObj_shrinks
          | apply bind_shrinks | intro ]. }
    lia.
Qed.

Lemma X9_decoder_reads_forward_witness :
  decodeObj 1 (PutUint32 IntegerType ++ PutUint32 5 ++ [x2a])
  = (Ok (OInteger 5), [x2a]) /\
  exists consumed,
    PutUint32 IntegerType ++ PutUint32 5 ++ [x2a] = consumed ++ [x2a].
Proof.
  assert (E : decodeObj 1 (PutUint32 IntegerType ++ PutUint32 5 ++ [x2a])
              = (Ok (OInteger 5), [x2a])) by (vm_compute; reflexivity).
  split; [exact E|].
  exact (proj1 (X9_decoder_reads_forward 1 _ _ _ E)).
Defined.

(** ** The numbers of a decoded tree *)

Lemma Uint32_in_uint32 b : in_uint32 (Uint32 b) = true.
Proof.
  pose proof (Uint32_range b) as Hb. unfold in_uint32.
  apply andb_true_iff. split; [apply Z.leb_le | apply Z.ltb_lt]; lia.
Qed.

Lemma bind_Ok_inv {A B} (m : Dec A) (k : A -> Dec B) r b r' :
  bind m k r = (Ok b, r') ->
  exists a r1, m r = (Ok a, r1) /\ k a r1 = (Ok b, r').
Proof.
  unfold bind. destruct (m r) as [[a| e |] r1]; try discriminate. eauto.
Qed.

Lemma times_Ok_Forall {A} (P : A -> Prop) (dec : Dec A) :
  (forall r a r', dec r = (Ok a, r') -> P a) ->
  forall n r l r', times n dec r = (Ok l, r') -> Forall P l.
Proof.
  intros Hd. induction n as [|n IH]; intros r l r' E.
  - injection E as <- _. constructor.
  - cbn [times] in E.
    apply bind_Ok_inv in E as [v [r1 [Ev E]]].
    apply bind_Ok_inv in E as [a [r2 [Ea E]]].
    injection E as <- _. constructor; [eapply Hd | eapply IH]; eassumption.
Qed.

Lemma decodeDict_loop_Ok (dec : Dec obj) :
  (forall r o r', dec r = (Ok o, r') -> obj_ok o) ->
  forall n (d : gmap string obj) r d' r',
    (forall k v, d !! k = Some v -> obj_ok v) ->
    decodeDict_loop dec n d r = (Ok d', r') ->
    forall k v, d' !! k = Some v -> obj_ok v.
Proof.
  intros Hd. induction n as [|n IH]; intros d r d' r' Hok E.
  - injection E as <- _. exact Hok.
  - cbn [decodeDict_loop] in E.
    apply bind_Ok_inv in E as [o [r1 [Eo E]]].
    apply bind_Ok_inv in E as [key [r2 [Ek E]]].
    apply bind_Ok_inv in E as [v [r3 [Ev E]]].
    eapply IH; [|exact E].
    intros k0 v0. rewrite lookup_insert. case_decide.
    + intros [= <-]. eapply Hd; eassumption.
    + apply Hok.
Qed.

Lemma ReadInt32_Ok r i r' : ReadInt32 r = (Ok i, r') -> in_int32 i = true.
Proof.
  intros E. apply bind_Ok_inv in E as [u [r1 [_ E]]].
  injection E as <- _. apply to_int32_range.
Qed.

Lemma ReadFloat32_Ok r f r' : ReadFloat32 r = (Ok f, r') -> in_uint32 f = true.
Proof.
  intros E. apply bind_Ok_inv in E as [u [r1 [Eu E]]].
  injection E as <- _.
  apply bind_Ok_inv in Eu as [bs [r2 [_ Eu]]]. injection Eu as <- _.
  apply Uint32_in_uint32.
Qed.

(** X10: in every node that decodeObj returns, at any depth of the tree,
    each integer (scalar or element) lies in the 32-bit signed range and
    each float (scalar, element or component of a Vector3) is a 32-bit
    pattern, whatever bytes the stream holds. *)
Theorem X10_decoded_numbers_in_range
    (fuel : nat) (r r' : list byte) (o : obj) :
  decodeObj fuel r = (Ok o, r') -> obj_ok o.
Proof.
  revert r r' o. induction fuel as [|fuel IH]; intros r r' o E;
    [discriminate E|].
  cbn [decodeObj] in E. apply bind_Ok_inv in E as [typ [r1 [_ E]]].
  repeat match type of E with
  | context [ typ =? ?c ] => destruct (typ =? c)
  end.
  - apply bind_Ok_inv in E as [s [r2 [_ E]]]. injection E as <- _. constructor.
  - apply bind_Ok_inv in E as [buf [r2 [_ E]]].
    apply bind_Ok_inv in E as [i [r3 [Ei E]]]. injection E as <- _.
    constructor. unfold Integer_UnmarshalVariant in Ei.
    destruct (_ <? _)%nat; [discriminate Ei|]. injection Ei as <- _.
    apply to_int32_range.
  - apply bind_Ok_inv in E as [buf [r2 [_ E]]].
    apply bind_Ok_inv in E as [f [r3 [Ef E]]]. injection E as <- _.
    constructor. unfold Float_UnmarshalVariant in Ef.
    destruct (_ <? _)%nat; [discriminate Ef|]. injection Ef as <- _.
    apply Uint32_in_uint32.
  - apply bind_Ok_inv in E as [d [r2 [Ed E]]]. injection E as <- _.
    constructor. unfold decodeDict_of in Ed.
    apply bind_Ok_inv in Ed as [header [r3 [_ Ed]]].
    apply (decodeDict_loop_Ok (decodeObj fuel) (fun r o r' => IH r r' o)
             _ _ _ _ _
             ltac:(intros k v; rewrite lookup_empty; discriminate) Ed).
  - apply bind_Ok_inv in E as [buf [r2 [_ E]]].
    apply bind_Ok_inv in E as [v [r3 [Ev E]]]. injection E as <- _.
    unfold Vector3_UnmarshalVariant in Ev.
    destruct (_ <? _)%nat; [discriminate Ev|]. injection Ev as <- _.
    constructor; apply Uint32_in_uint32.
  - apply bind_Ok_inv in E as [a [r2 [Ea E]]]. injection E as <- _.
    constructor. unfold decodeIntegerArray in Ea.
    apply bind_Ok_inv in Ea as [header [r3 [_ Ea]]].
    exact (times_Ok_Forall _ _ ReadInt32_Ok _ _ _ _ Ea).
  - apply bind_Ok_inv in E as [a [r2 [Ea E]]]. injection E as <- _.
    constructor. unfold decodeFloatArray in Ea.
    apply bind_Ok_inv in Ea as [header [r3 [_ Ea]]].
    exact (times_Ok_Forall _ _ ReadFloat32_Ok _ _ _ _ Ea).
  - apply bind_Ok_inv in E as [a [r2 [Ea E]]]. injection E as <- _.
    constructor. unfold decodeGenericArray_of in Ea.
    apply bind_Ok_inv in Ea as [header [r3 [_ Ea]]].
    exact (times_Ok_Forall _ _ (fun r o r' => IH r r' o) _ _ _ _ Ea).
  - discriminate E.
Qed.

Lemma X10_decoded_numbers_in_range_witness :
  decodeObj 1 (PutUint32 IntegerType ++ [xff; xff; xff; xff])
  = (Ok (OInteger (-1)), []) /\
  obj_ok (OInteger (-1)).
Proof.
  assert (E : decodeObj 1 (PutUint32 IntegerType ++ [xff; xff; xff; xff])
              = (Ok (OInteger (-1)), [])) by (vm_compute; reflexivity).
  split; [exact E|].
  exact (X10_decoded_numbers_in_range 1 _ _ _ E).
Defined.

(** ** What the encoder writes into a buffer *)

Section ValueInduction.
Variable P : value -> Prop.
Hypothesis Hleaf : forall v, is_container v = false -> P v.
Hypothesis HSlice : forall et a, Forall P a -> P (VSlice et a).
Hypothesis HStruct :
  forall fields, Forall (fun f => P (snd f)) fields -> P (VStruct fields).
Hypothesis HMap :
  forall kt vt entries,
    Forall (fun e => P (fst e) /\ P (snd e)) entries ->
    P (VMap kt vt entries).

Lemma value_induction (v : value) : P v.
Proof.
  revert v. fix IH 1. intros v.
  destruct v as [| | | | | | | | | |et a|fields|kt vt entries];
    try (apply Hleaf; reflexivity).
  - apply HSlice. induction a as [|x a IHa]; constructor;
      [apply IH | exact IHa].
  - apply HStruct. induction fields as [|x l IHl]; constructor;
      [apply IH | exact IHl].
  - apply HMap. induction entries as [|x l IHl]; constructor;
      [split; apply IH | exact IHl].
Qed.
End ValueInduction.

Lemma tidy_done : tidy done_.
Proof. exists [], None. split; [intros w; cbn; now rewrite app_nil_r | reflexivity]. Qed.

Lemma tidy_raise e : tidy (raise e).
Proof.
  exists [], (Some e).
  split; [intros w; cbn; now rewrite app_nil_r | reflexivity].
Qed.

Lemma tidy_word (h : Z) : tidy (binary_Write_uint32 h).
Proof. exists (PutUint32 h), None. split; [reflexivity | reflexivity]. Qed.

Lemma tidy_writePadded data : tidy (writePadded data).
Proof.
  exists (data ++ repeat x00
            (Z.to_nat (padding_of (Z.of_nat (length data))))), None.
  split; [intros w; apply writePadded_buffer|].
  rewrite length_app, repeat_length, Nat2Z.inj_add, Z2Nat.id.
  - apply padding_of_aligned. lia.
  - destruct (padding_of_cases (Z.of_nat (length data)) ltac:(lia))
      as [[_ ->] | [[_ ->] | [[_ ->] | [_ ->]]]]; lia.
Qed.

Lemma tidy_andThen (e1 e2 : Enc (list byte)) :
  tidy e1 -> tidy e2 -> tidy (andThen e1 e2).
Proof.
  intros [bs1 [err1 [H1 A1]]] [bs2 [err2 [H2 A2]]].
  destruct err1 as [e|].
  - exists bs1, (Some e). split; [|exact A1].
    intros w. unfold andThen. now rewrite H1.
  - exists (bs1 ++ bs2), err2. split.
    + intros w. unfold andThen. rewrite H1, H2. now rewrite <- app_assoc.
    + rewrite length_app, Nat2Z.inj_add.
      rewrite Z.add_mod, A1, A2 by lia. reflexivity.
Qed.

Lemma tidy_forEach {A} (body : A -> Enc (list byte)) (a : list A) :
  Forall (fun x => tidy (body x)) a -> tidy (forEach body a).
Proof.
  induction 1 as [|x a Hx _ IH]; [apply tidy_done|].
  cbn [forEach]. now apply tidy_andThen.
Qed.

Lemma tidy_encodeMarshaler m : tidy (encodeMarshaler m).
Proof.
  destruct m as [data [e|]]; [apply tidy_raise | apply tidy_writePadded].
Qed.

Lemma tidy_ext (e1 e2 : Enc (list byte)) :
  (forall w, e1 w = e2 w) -> tidy e2 -> tidy e1.
Proof.
  intros Hext [bs [err [H A]]]. exists bs, err.
  split; [intros w; now rewrite Hext | exact A].
Qed.

Lemma tidy_writeDictHeader n : tidy (writeDictHeader n).
Proof.
  unfold writeDictHeader.
  apply tidy_andThen; [apply tidy_word|]. apply tidy_word.
Qed.

Section Tidy.
Variable cvt : float64 -> float32.

Lemma tidy_after_dict_header n (body : Enc (list byte)) :
  tidy body ->
  tidy (fun w =>
          match writeDictHeader n w with
          | (w, Some err) => (w, None)
          | (w, None) => body w
          end).
Proof.
  intros Hb.
  apply (tidy_ext _ (andThen (writeDictHeader n) body)).
  - intros w. unfold andThen. now rewrite writeDictHeader_buffer.
  - apply tidy_andThen; [apply tidy_writeDictHeader | exact Hb].
Qed.

Lemma encodeObj_tidy (v : value) : tidy (encodeObj cvt v).
Proof.
  induction v as [v Hv | et a IH | fields IH | kt vt entries IH]
    using value_induction.
  - destruct v; try discriminate Hv; cbn [encodeObj MarshalVariant];
      try apply tidy_encodeMarshaler; try apply tidy_raise.
    + destruct k; first [apply tidy_encodeMarshaler | apply tidy_raise].
    + unfold encodeStr.
      apply tidy_andThen; [apply tidy_word|].
      apply tidy_andThen; [apply tidy_word | apply tidy_writePadded].
  - apply (tidy_ext _ (encodeSlice_of cvt (encodeObj cvt) et a));
      [reflexivity|].
    unfold encodeSlice_of, encodeUIntegerArray, encodeIntegerArray,
      encodeFloatArray, encodeGenericArray_of.
    destruct (Type_Kind et);
      (apply tidy_andThen; [apply tidy_word|];
       apply tidy_andThen; [apply tidy_word|];
       apply tidy_forEach);
      try exact IH;
      apply List.Forall_forall; intros x _; cbv zeta;
      match goal with
      | |- tidy (match ?o with _ => _ end) => destruct o
      end;
      first [apply tidy_word | apply tidy_raise].
  - apply (tidy_ext _ (encodeStruct_of (encodeObj cvt) fields));
      [reflexivity|].
    unfold encodeStruct_of. apply tidy_after_dict_header, tidy_forEach.
    eapply List.Forall_impl; [|exact IH]. intros f Hf. cbn beta.
    apply tidy_andThen; [|exact Hf]. unfold encodeStr.
    apply tidy_andThen; [apply tidy_word|].
    apply tidy_andThen; [apply tidy_word | apply tidy_writePadded].
  - apply (tidy_ext _ (encodeMap_of (encodeObj cvt) entries));
      [reflexivity|].
    unfold encodeMap_of. apply tidy_after_dict_header, tidy_forEach.
    eapply List.Forall_impl; [|exact IH]. intros e [Hk Hval]. cbn beta.
    now apply tidy_andThen.
Qed.
End Tidy.

(** X11: into a buffer, Encode only appends: the bytes it adds and the
    error it returns are the same whatever the buffer already holds, for
    every value, and what was in the buffer stays in front unchanged. *)
Theorem X11_encode_appends
    (float32_of_float64 : float64 -> float32) (v : value) :
  exists (bs : list byte) (err : option error),
    forall w : list byte, Encode float32_of_float64 v w = (w ++ bs, err).
Proof.
  destruct (encodeObj_tidy float32_of_float64 v) as [bs [err [H _]]].
  exists bs, err. exact H.
Qed.

(** X12: whatever the value, and whether Encode returns an error or not,
    the number of bytes it has added to a buffer is a multiple of four:
    every tag, header word and payload ends on a 4-byte boundary. *)
Theorem X12_encode_keeps_alignment
    (float32_of_float64 : float64 -> float32) (v : value) (w : list byte) :
  exists k : nat,
    length (fst (Encode float32_of_float64 v w)) = (length w + 4 * k)%nat.
Proof.
  destruct (encodeObj_tidy float32_of_float64 v) as [bs [err [H A]]].
  unfold Encode. rewrite H. cbn [fst]. rewrite length_app.
  exists (length bs / 4)%nat.
  assert (Hm : (length bs mod 4 = 0)%nat).
  { apply Nat2Z.inj. rewrite Nat2Z.inj_mod. exact A. }
  pose proof (Nat.div_mod (length bs) 4 ltac:(lia)). lia.
Qed.

(** ** Values the encoder rejects *)

Lemma encodeObj_unsupported
    (W : Type) (HW : Writer W) (cvt : float64 -> float32) (v : value) (w : W) :
  MarshalVariant v = None ->
  handled_kind (Value_Kind v) = false ->
  encodeObj cvt v w = (w, Some (ErrUnsupportedKind (Value_Kind v))).
Proof.
  intros Hm Hk.
  destruct v; try discriminate Hm; try discriminate Hk;
    cbn [encodeObj MarshalVariant]; try reflexivity.
  destruct k; try discriminate Hk; reflexivity.
Qed.

(** X13: a value whose type has no MarshalVariant and whose kind the switch
    of encodeObj does not list (bool, int, uint, uintptr, interface, ...)
    is rejected at once: on every writer Encode writes nothing and returns
    "unsupported kind" with that kind. *)
Theorem X13_unsupported_kind_writes_nothing
    (W : Type) (HW : Writer W) (float32_of_float64 : float64 -> float32)
    (v : value) (w : W) :
  MarshalVariant v = None ->
  handled_kind (Value_Kind v) = false ->
  Encode float32_of_float64 v w = (w, Some (ErrUnsupportedKind (Value_Kind v))).
Proof.
  intros Hm Hk. unfold Encode. now apply encodeObj_unsupported.
Qed.

Lemma X13_unsupported_kind_writes_nothing_witness :
  (MarshalVariant (VInt reflect.Uint 7) = None /\
   handled_kind (Value_Kind (VInt reflect.Uint 7)) = false) /\
  Encode (fun x => x) (VInt reflect.Uint 7) {| lw_out := []; lw_room := 8 |}
  = ({| lw_out := []; lw_room := 8 |}, Some (ErrUnsupportedKind reflect.Uint)).
Proof.
  split; [split; reflexivity|].
  exact (X13_unsupported_kind_writes_nothing LimitedWriter Limited_Writer
           (fun x => x) (VInt reflect.Uint 7) _ eq_refl eq_refl).
Defined.

(** X14: a rejected value inside a container fails the whole Encode after
    part of the container is written.  For a slice of a non-numeric
    element type whose first element is rejected (a []interface{} with an
    element, a []int), the buffer gets the sequence tag and header and
    Encode returns the element's error; for a struct whose first field is
    rejected, the buffer gets the record tag, header and the field name. *)
Theorem X14_rejected_element_after_partial_write
    (float32_of_float64 : float64 -> float32)
    (et : gotype) (x : value) (a : list value)
    (name : string) (fields : list (string * value)) (w : list byte) :
  classify (Type_Kind et) = OtherElems ->
  MarshalVariant x = None ->
  handled_kind (Value_Kind x) = false ->
  Encode float32_of_float64 (VSlice et (x :: a)) w
  = (w ++ PutUint32 ArrayType
       ++ PutUint32 (Z.lor (Z.lor 0 0x80000000)
            (Z.land (to_uint32 (Z.of_nat (length (x :: a)))) 0x7FFFFFFF)),
     Some (ErrUnsupportedKind (Value_Kind x))) /\
  Encode float32_of_float64 (VStruct ((name, x) :: fields)) w
  = (w ++ PutUint32 DictionaryType
       ++ PutUint32 (Z.lor (Z.lor 0 0x80000000)
            (Z.land 0x7FFFFFFF
               (to_uint32 (Z.of_nat (length ((name, x) :: fields))))))
       ++ text_wire name,
     Some (ErrUnsupportedKind (Value_Kind x))).
Proof.
  intros Hc Hm Hk.
  assert (Ex : forall w0 : list byte,
    encodeObj float32_of_float64 x w0
    = (w0, Some (ErrUnsupportedKind (Value_Kind x)))).
  { intros w0. now apply encodeObj_unsupported. }
  unfold Encode. split.
  - cbn [encodeObj MarshalVariant].
    rewrite encodeSlice_of_classify, Hc.
    unfold encodeGenericArray_of, andThen, writeHeader.
    rewrite !WriteHeader_buffer. cbn [forEach]. unfold andThen.
    rewrite Ex. now rewrite <- !app_assoc.
  - cbn [encodeObj MarshalVariant]. unfold encodeStruct_of.
    rewrite writeDictHeader_buffer. cbn [forEach fst snd]. unfold andThen.
    rewrite encodeStr_buffer, Ex. unfold text_wire.
    now rewrite <- !app_assoc.
Qed.

Lemma X14_rejected_element_after_partial_write_witness :
  (classify (Type_Kind TInterface) = OtherElems /\
   MarshalVariant (VIface (VString "x")) = None /\
   handled_kind (Value_Kind (VIface (VString "x"))) = false) /\
  Encode (fun x => x) (VSlice TInterface [VIface (VString "x")])
    ([] : list byte)
  = (PutUint32 ArrayType ++ PutUint32 0x80000001,
     Some (ErrUnsupportedKind reflect.Interface)).
Proof.
  split; [repeat split; reflexivity|].
  exact (proj1 (X14_rejected_element_after_partial_write (fun x => x)
                  TInterface (VIface (VString "x")) [] "" [] []
                  eq_refl eq_refl eq_refl)).
Defined.

(** ** Structs and mappings on the wire *)



(** ** The header word of a keyed record *)

(** X16: into a buffer, writeDictHeader writes the record tag 20 and one
    header word whose bit 31 is set and whose low 31 bits are the pair
    count modulo 2^31: the count itself when it is below 2^31. *)
Theorem X16_dict_header_word (n : Z) (w : list byte) :
  0 <= n ->
  exists h,
    writeDictHeader n w = (w ++ PutUint32 DictionaryType ++ PutUint32 h, None) /\
    0 <= h < 2^32 /\
    Z.testbit h 31 = true /\
    Z.land h 0x7FFFFFFF = n mod 2^31 /\
    (n < 2^31 -> h = 0x80000000 + n).
Proof.
  intros Hn.
  exists (Z.lor (Z.lor 0 0x80000000) (Z.land 0x7FFFFFFF (to_uint32 n))).
  split; [apply writeDictHeader_buffer|].
  unfold to_uint32. rewrite Z.lor_0_l, <- (Z.land_ones n 32) by lia.
  change 0x7FFFFFFF with (Z.ones 31). change 0x80000000 with (2^31).
  assert (Hlow : Z.land (Z.lor (2^31) (Z.land (Z.ones 31)
                   (Z.land n (Z.ones 32)))) (Z.ones 31)
                 = Z.land n (Z.ones 31)).
  { apply Z.bits_inj'. intros m Hm.
    rewrite !Z.land_spec, Z.lor_spec, !Z.land_spec, Z.pow2_bits_eqb,
      !testbit_ones by lia.
    destruct (Z.eqb_spec 31 m) as [<-|_]; [cbn; now rewrite !andb_false_r|].
    bits_cases. }
  split; [|split; [|split]].
  - assert (E : Z.lor (2^31) (Z.land (Z.ones 31) (Z.land n (Z.ones 32)))
                = Z.land (Z.lor (2^31) (Z.land (Z.ones 31)
                    (Z.land n (Z.ones 32)))) (Z.ones 32)).
    { apply Z.bits_inj'. intros m Hm.
      rewrite !Z.land_spec, Z.lor_spec, !Z.land_spec, Z.pow2_bits_eqb,
        !testbit_ones by lia.
      destruct (Z.eqb_spec 31 m) as [<-|_]; [reflexivity|].
      bits_cases. }
    rewrite E, Z.land_ones by lia. apply Z.mod_pos_bound. lia.
  - rewrite Z.lor_spec, Z.pow2_bits_eqb by lia. reflexivity.
  - rewrite Hlow. apply Z.land_ones. lia.
  - intros Hlt.
    assert (En : Z.land (Z.ones 31) (Z.land n (Z.ones 32)) = n).
    { rewrite <- (Z.mod_small n (2^31)) at 2 by lia.
      rewrite <- Z.land_ones by lia.
      apply Z.bits_inj'. intros m Hm.
      rewrite !Z.land_spec, !testbit_ones by lia. bits_cases. }
    rewrite En.
    rewrite <- Z.lxor_lor, <- Z.add_nocarry_lxor; [reflexivity | |];
      (rewrite <- (Z.mod_small n (2^31)) by lia;
       rewrite <- Z.land_ones by lia;
       apply Z.bits_inj'; intros m Hm;
       rewrite !Z.land_spec, Z.pow2_bits_eqb, testbit_ones, Z.bits_0 by lia;
       destruct (Z.eqb_spec 31 m) as [<-|_]; [|reflexivity];
       cbn; now rewrite !andb_false_r).
Qed.

Lemma X16_dict_header_word_witness :
  0 <= 3 /\
  writeDictHeader 3 ([] : list byte)
  = (PutUint32 DictionaryType ++ PutUint32 0x80000003, None).
Proof.
  split; [lia|].
  destruct (X16_dict_header_word 3 [] ltac:(lia)) as [h [E [_ [_ [_ Hh]]]]].
  rewrite E, (Hh ltac:(reflexivity)). reflexivity.
Defined.

(** ** Keys that repeat in a keyed record *)

Lemma foldl_insert_other (l : list (string * obj)) (d : gmap string obj) k :
  ~ In k (List.map fst l) ->
  foldl (fun d kv => <[fst kv := snd kv]> d) d l !! k = d !! k.
Proof.
  revert d. induction l as [|[k0 v0] l IH]; intros d Hk; [reflexivity|].
  cbn [foldl fst snd]. rewrite IH by (intros Hin; apply Hk; now right).
  cbn [fst snd]. rewrite lookup_insert_ne; [reflexivity|].
  intros ->. apply Hk. now left.
Qed.

Lemma dict_of_last (l1 l2 : list (string * obj)) k v :
  ~ In k (List.map fst l2) -> dict_of (l1 ++ (k, v) :: l2) !! k = Some v.
Proof.
  intros Hk. unfold dict_of. rewrite foldl_app. cbn [foldl].
  rewrite foldl_insert_other by exact Hk. apply lookup_insert_eq.
Qed.

Lemma dict_of_absent (l : list (string * obj)) k :
  ~ In k (List.map fst l) -> dict_of l !! k = None.
Proof.
  intros Hk. unfold dict_of. rewrite foldl_insert_other by exact Hk.
  apply lookup_empty.
Qed.

(** X17: decodeDict stores the pairs in stream order, so a key that occurs
    more than once keeps the value of its last occurrence, and a key that
    does not occur is absent.  The pairs are text keys with values that the
    wire holds without loss; the header word carries their count, with the
    shared bit set or not. *)
Theorem X17_last_occurrence_of_a_key_wins
    (float32_of_float64 : float64 -> float32)
    (l1 l2 : list (string * value)) (k : string) (v : value)
    (h : Z) (rest : list byte) :
  let pairs := l1 ++ (k, v) :: l2 in
  let stream :=
    PutUint32 DictionaryType ++ PutUint32 h
      ++ concat (List.map (fun p => text_wire (fst p)
                                      ++ wire float32_of_float64 (snd p))
                   pairs)
      ++ rest in
  lossless (VStruct pairs) = true ->
  Z.land h 0x7FFFFFFF = Z.of_nat (length pairs) ->
  ~ In k (List.map fst l2) ->
  exists d : gmap string obj,
    decodeObj (S (length stream)) stream = (Ok (ODict d), rest) /\
    d !! k = Some (dynamic_tree v) /\
    forall k', ~ In k' (List.map fst pairs) -> d !! k' = None.
Proof.
  intros pairs stream Hl Hh Hk.
  cbn [lossless] in Hl. apply andb_true_iff in Hl as [_ Hall].
  set (fuel := list_max (List.map (fun p => depth (snd p)) pairs)).
  assert (Hp : forall p, In p pairs ->
            short_text (fst p) = true /\
            transports float32_of_float64 fuel (snd p)).
  { intros p Hin. pose proof (forallb_In _ _ _ Hall Hin) as Hf.
    cbn beta in Hf. apply andb_true_iff in Hf as [Hs Hv].
    split; [exact Hs|]. apply lossless_transports; [exact Hv|].
    exact (in_list_max (fun p => depth (snd p)) p pairs Hin). }
  assert (Hfuel : exists fuel', fuel = S fuel').
  { assert (Hin : In (k, v) pairs) by (apply in_elt).
    pose proof (in_list_max (fun p => depth (snd p)) (k, v) pairs Hin) as Hm.
    cbn beta in Hm. fold fuel in Hm. pose proof (depth_pos v).
    cbn [snd] in Hm. destruct fuel; [lia | eauto]. }
  set (kvs := List.map (fun p => (fst p, dynamic_tree (snd p))) pairs).
  assert (E : decodeObj (S fuel) stream = (Ok (ODict (dict_of kvs)), rest)).
  { subst stream. rewrite decodeObj_Dictionary. unfold bind.
    rewrite decodeDict_header, Hh, Nat2Z.id.
    rewrite (decodeDict_loop_concat (decodeObj fuel)
               (fun p => text_wire (fst p))
               (fun p => wire float32_of_float64 (snd p))
               fst (fun p => dynamic_tree (snd p))); [reflexivity | |].
    - intros p r Hin. destruct Hfuel as [fuel' ->].
      apply decodeObj_text. exact (proj1 (Hp p Hin)).
    - intros p r Hin. apply (proj2 (proj2 (Hp p Hin))). }
  exists (dict_of kvs). split; [|split].
  - apply (decodeObj_adequate _ _ _ _ E). discriminate.
  - subst kvs pairs. rewrite List.map_app. cbn [List.map fst snd].
    apply dict_of_last. now rewrite List.map_map.
  - intros k' Hk'. apply dict_of_absent. subst kvs.
    now rewrite List.map_map.
Qed.

Lemma X17_last_occurrence_of_a_key_wins_witness :
  exists d : gmap string obj,
    decodeObj 45
      (PutUint32 DictionaryType ++ PutUint32 2
         ++ (text_wire "k" ++ wire (fun x => x) (VInteger 1))
         ++ (text_wire "k" ++ wire (fun x => x) (VInteger 2)))
    = (Ok (ODict d), []) /\
    d !! "k"%string = Some (OInteger 2).
Proof.
  destruct (X17_last_occurrence_of_a_key_wins (fun x => x)
              [("k"%string, VInteger 1)] [] "k" (VInteger 2) 2 []
              ltac:(vm_compute; reflexivity) ltac:(reflexivity)
              ltac:(cbn; tauto)) as [d [E [Hd _]]].
  exists d. split; [exact E | exact Hd].
Defined.

(** ** Integers beyond 32 bits *)

Lemma decodeObj_Integer_word fuel u rest :
  decodeObj (S fuel) (PutUint32 IntegerType ++ PutUint32 u ++ rest)
  = (Ok (OInteger (to_int32 u)), rest).
Proof.
  cbn [decodeObj]. unfold bind at 1.
  rewrite readHeader_PutUint32.
  change (IntegerType mod 2^32) with 2.
  change (2 =? StringType) with false. change (2 =? IntegerType) with true.
  cbv iota. unfold bind.
  rewrite (ReadAtLeast_exact 4 (PutUint32 u) rest) by reflexivity.
  now rewrite Integer_UnmarshalVariant_PutUint32.
Qed.

(** X18: an integer of a fixed-width kind, however large, is encoded
    without error, and decoding gives the int32 with the same low 32 bits:
    the value itself exactly when it lies in the 32-bit signed range, and
    the value minus 2^32 for an unsigned value from 2^31 to 2^32 - 1. *)
Theorem X18_integer_wraps_to_int32
    (float32_of_float64 : float64 -> float32)
    (fuel : nat) (k : reflect.Kind) (n : Z) (rest : list byte) :
  fixed_width_int k = true ->
  exists bs : list byte,
    Encode float32_of_float64 (VInt k n) ([] : list byte) = (bs, None) /\
    decodeObj (S fuel) (bs ++ rest) = (Ok (OInteger (to_int32 n)), rest) /\
    to_int32 n mod 2^32 = n mod 2^32 /\
    (to_int32 n = n <-> in_int32 n = true) /\
    (2^31 <= n < 2^32 -> to_int32 n = n - 2^32).
Proof.
  intros Hk. exists (PutUint32 IntegerType ++ PutUint32 (n mod 2^32)).
  split; [unfold Encode; now rewrite encodeObj_fixed_width_int|].
  split.
  { rewrite <- app_assoc, decodeObj_Integer_word.
    change (n mod 2^32) with (to_uint32 n). now rewrite to_int32_to_uint32. }
  split; [exact (to_uint32_to_int32 n)|]. split.
  - split; [|apply to_int32_small].
    intros E. rewrite <- E. apply to_int32_range.
  - intros Hn. unfold to_int32.
    change (2^31) with 2147483648 in *. change (2^32) with 4294967296 in *.
    rewrite Z.mod_small by lia.
    destruct (Z.ltb_spec n 2147483648); lia.
Qed.

Lemma X18_integer_wraps_to_int32_witness :
  fixed_width_int reflect.Uint32 = true /\
  exists bs : list byte,
    Encode (fun x => x) (VInt reflect.Uint32 3000000000) ([] : list byte)
    = (bs, None) /\
    decodeObj 1 (bs ++ []) = (Ok (OInteger (-1294967296)), []).
Proof.
  split; [reflexivity|].
  destruct (X18_integer_wraps_to_int32 (fun x => x) 0 reflect.Uint32
              3000000000 [] eq_refl) as [bs [E [D _]]].
  exists bs. split; [exact E | exact D].
Defined.

(** ** Several values in one stream *)





(** ** 64-bit floats *)

(** X21: a float64 goes through Go's conversion to float32 before it is
    written: as a scalar it gives the same bytes as the Float of the
    converted value (tag 3 and the converted pattern), as an element of a
    []float64 it is written as the converted pattern after tag 24 and the
    count, and decodeObj returns the converted pattern. *)
Theorem X21_float64_narrowed
    (float32_of_float64 : float64 -> float32)
    (fuel : nat) (x : float64) (xs : list float64) (w rest : list byte) :
  Encode float32_of_float64 (VFloat64 x) w
  = Encode float32_of_float64 (VFloat (float32_of_float64 x)) w /\
  Encode float32_of_float64 (VFloat64 x) w
  = (w ++ PutUint32 FloatType ++ PutUint32 (float32_of_float64 x), None) /\
  Encode float32_of_float64
    (VSlice (TBasic reflect.Float64) (List.map VFloat64 xs)) w
  = (w ++ PutUint32 FloatArrayType
       ++ PutUint32 (to_uint32 (Z.of_nat (length xs)))
       ++ concat (List.map (fun x => PutUint32 (float32_of_float64 x)) xs),
     None) /\
  decodeObj (S fuel)
    (PutUint32 FloatType ++ PutUint32 (float32_of_float64 x) ++ rest)
  = (Ok (OFloat (float32_of_float64 x mod 2^32)), rest).
Proof.
  split; [reflexivity|]. split; [|split].
  - unfold Encode. cbn [encodeObj MarshalVariant].
    rewrite Float_MarshalVariant_bytes, encodeMarshaler_buffer.
    change (repeat x00 _) with (@nil byte). now rewrite app_nil_r.
  - unfold Encode. cbn [encodeObj MarshalVariant encodeSlice_of Type_Kind].
    unfold encodeFloatArray, andThen, writeHeader.
    rewrite !WriteHeader_buffer, length_map.
    rewrite (forEach_buffer _ (fun v =>
               match v with
               | VFloat64 x => PutUint32 (float32_of_float64 x)
               | _ => []
               end)).
    + rewrite List.map_map. now rewrite <- !app_assoc.
    + intros v w0 Hv. apply List.in_map_iff in Hv as [y [<- _]]. reflexivity.
  - cbn [decodeObj]. unfold bind at 1. rewrite readHeader_PutUint32.
    change (FloatType mod 2^32) with 3.
    change (3 =? StringType) with false. change (3 =? IntegerType) with false.
    change (3 =? FloatType) with true. cbv iota. unfold bind.
    rewrite (ReadAtLeast_exact 4 (PutUint32 _) rest) by reflexivity.
    now rewrite Float_UnmarshalVariant_PutUint32.
Qed.

(** ** Mappings whose keys are not text *)




